(** * Polaris principal store: validator and SQL user store

    A shallow embedding of two Go files of the Polaris server:
    the request validator of package [defaultauth] ([checkName],
    [checkPassword]) and the user store of package [sqldb]
    ([AddUser], [UpdateUser], [DeleteUser] and the read operations).

    Go strings are byte sequences, modelled by [string] (one [ascii]
    per byte); runes are code points in [Z]. *)

From Stdlib Require Import ZArith Ascii String DecimalString List Bool Lia.
From stdpp Require Import base option list gmap strings.
Import ListNotations.

Local Open Scope string_scope.
Local Open Scope Z_scope.

(** ** Go runtime: bytes, runes and UTF-8 *)

Module Utf8.

Definition rune := Z.

Definition RuneError : rune := 65533.

Definition byte (c : ascii) : Z := Z.of_N (N_of_ascii c).

Definition chr (b : Z) : ascii := ascii_of_N (Z.to_N b).

(** What the table [first] of package utf8 says about a leading byte:
    plain ASCII, an illegal leader, or the leader of a sequence of [size]
    bytes whose second byte must lie in [lo, hi]. *)
Inductive leader :=
| Ascii
| Illegal
| Lead (size : nat) (lo hi : Z).

Definition first (s0 : Z) : leader :=
  if s0 <? 128 then Ascii
  else if s0 <? 194 then Illegal
  else if s0 <? 224 then Lead 2 128 191
  else if s0 =? 224 then Lead 3 160 191
  else if s0 <? 237 then Lead 3 128 191
  else if s0 =? 237 then Lead 3 128 159
  else if s0 <? 240 then Lead 3 128 191
  else if s0 =? 240 then Lead 4 144 191
  else if s0 <? 244 then Lead 4 128 191
  else if s0 =? 244 then Lead 4 128 143
  else Illegal.

Definition cont (b : Z) : bool := (128 <=? b) && (b <=? 191).

Definition low6 (b : Z) : Z := Z.land b 63.

(** [[]rune(s)]: the code points of [s]; every byte that does not start a
    well-formed sequence yields [RuneError] and is skipped alone. *)
Fixpoint runes (s : string) : list rune :=
  match s with
  | EmptyString => []
  | String c0 t0 =>
    let s0 := byte c0 in
    match first s0 with
    | Ascii => s0 :: runes t0
    | Illegal => RuneError :: runes t0
    | Lead size lo hi =>
      match t0 with
      | EmptyString => RuneError :: runes t0
      | String c1 t1 =>
        let s1 := byte c1 in
        if (s1 <? lo) || (hi <? s1) then RuneError :: runes t0
        else if (size <=? 2)%nat then
          Z.lor (Z.shiftl (Z.land s0 31) 6) (low6 s1) :: runes t1
        else
          match t1 with
          | EmptyString => RuneError :: runes t0
          | String c2 t2 =>
            let s2 := byte c2 in
            if negb (cont s2) then RuneError :: runes t0
            else if (size <=? 3)%nat then
              Z.lor (Z.lor (Z.shiftl (Z.land s0 15) 12) (Z.shiftl (low6 s1) 6))
                    (low6 s2) :: runes t2
            else
              match t2 with
              | EmptyString => RuneError :: runes t0
              | String c3 t3 =>
                let s3 := byte c3 in
                if negb (cont s3) then RuneError :: runes t0
                else
                  Z.lor (Z.lor (Z.lor (Z.shiftl (Z.land s0 7) 18)
                                      (Z.shiftl (low6 s1) 12))
                               (Z.shiftl (low6 s2) 6))
                        (low6 s3) :: runes t3
              end
          end
      end
    end
  end.

(** [string(r)]: the UTF-8 encoding of one rune; values that are not
    code points (negative, surrogates, above U+10FFFF) encode
    [RuneError]. *)
Definition encode3 (r : rune) : string :=
  String (chr (Z.lor 224 (Z.shiftr r 12)))
 (String (chr (Z.lor 128 (low6 (Z.shiftr r 6))))
 (String (chr (Z.lor 128 (low6 r))) EmptyString)).

Definition string_of_rune (r : rune) : string :=
  if (0 <=? r) && (r <? 128) then String (chr r) EmptyString
  else if (0 <=? r) && (r <? 2048) then
    String (chr (Z.lor 192 (Z.shiftr r 6)))
   (String (chr (Z.lor 128 (low6 r))) EmptyString)
  else if (r <? 0) || (1114111 <? r) || ((55296 <=? r) && (r <=? 57343)) then
    encode3 RuneError
  else if r <? 65536 then encode3 r
  else
    String (chr (Z.lor 240 (Z.shiftr r 18)))
   (String (chr (Z.lor 128 (low6 (Z.shiftr r 12))))
   (String (chr (Z.lor 128 (low6 (Z.shiftr r 6))))
   (String (chr (Z.lor 128 (low6 r))) EmptyString))).

(** [len(s)]: the number of bytes. *)
Definition len (s : string) : Z := Z.of_nat (String.length s).

(** [strings.Contains(s, substr)]. *)
Fixpoint Contains (s substr : string) : bool :=
  String.prefix substr s ||
  match s with
  | EmptyString => false
  | String _ t => Contains t substr
  end.

End Utf8.

(** ** Regular expressions over runes

    [regexp.MatchString] is library code; it is modelled by Brzozowski
    derivatives over the abstract syntax of the pattern.  A pattern is a
    body together with its two anchors; without the multi-line flag [^]
    and [$] match only at the two ends of the text. *)

Module Regexp.
Import Utf8.

Inductive re :=
| Void
| Eps
| Class (ranges : list (rune * rune))
| Seq (r1 r2 : re)
| Alt (r1 r2 : re)
| Star (r : re).

Definition Plus (r : re) : re := Seq r (Star r).

Definition in_ranges (ranges : list (rune * rune)) (c : rune) : bool :=
  existsb (fun range => (fst range <=? c) && (c <=? snd range)) ranges.

Fixpoint nullable (r : re) : bool :=
  match r with
  | Void => false
  | Eps => true
  | Class _ => false
  | Seq r1 r2 => nullable r1 && nullable r2
  | Alt r1 r2 => nullable r1 || nullable r2
  | Star _ => true
  end.

Fixpoint deriv (c : rune) (r : re) : re :=
  match r with
  | Void => Void
  | Eps => Void
  | Class ranges => if in_ranges ranges c then Eps else Void
  | Seq r1 r2 =>
    if nullable r1 then Alt (Seq (deriv c r1) r2) (deriv c r2)
    else Seq (deriv c r1) r2
  | Alt r1 r2 => Alt (deriv c r1) (deriv c r2)
  | Star r1 => Seq (deriv c r1) (Star r1)
  end.

Fixpoint matches (r : re) (text : list rune) : bool :=
  match text with
  | [] => nullable r
  | c :: rest => matches (deriv c r) rest
  end.

(** The language of an expression, the reference [matches] is checked
    against. *)
Inductive Lang : re -> list rune -> Prop :=
| LEps : Lang Eps []
| LClass ranges c : in_ranges ranges c = true -> Lang (Class ranges) [c]
| LSeq r1 r2 l1 l2 : Lang r1 l1 -> Lang r2 l2 -> Lang (Seq r1 r2) (l1 ++ l2)
| LAltL r1 r2 l : Lang r1 l -> Lang (Alt r1 r2) l
| LAltR r1 r2 l : Lang r2 l -> Lang (Alt r1 r2) l
| LStarNil r : Lang (Star r) []
| LStarApp r l1 l2 : Lang r l1 -> Lang (Star r) l2 -> Lang (Star r) (l1 ++ l2).

Record pattern := { bol : bool; body : re; eol : bool }.

Definition any : re := Star (Class [(0, 1114111)]).

(** [regexp.MatchString(p, s)]: some substring of [s] matches, where an
    anchored side has to reach the end of the text. *)
Definition MatchString (p : pattern) (s : string) : bool :=
  matches (Seq (if bol p then Eps else any)
               (Seq (body p) (if eol p then Eps else any)))
          (runes s).

End Regexp.

(** ** Errors

    A Go [error] is [nil] ([None]) or a value.  The values met in the two
    files are those built by [errors.New], those of the SQL driver and
    the store's status errors. *)

Inductive StatusCode :=
| EmptyParamsErr
| OutOfRangeErr
| DataConflictErr
| NotFoundNamespace
| NotFoundService
| NotFoundMasterConfig
| NotFoundTagConfigOrService
| ExistReleasedConfig
| DuplicateEntryErr
| AffectedRowsNotMatch
| Unknown.

Inductive sqlerr :=
| ErrNoRows
| Deadlock
| BadConnection
| DuplicateEntry
| ErrTxDone
| SubqueryRows
| UnknownColumn (column : string)
| DriverFault (msg : string).

Inductive error :=
| errorsNew (msg : string)
| sqlError (e : sqlerr)
| StatusError (code : StatusCode) (msg : string).

(** ** Package defaultauth: the validator *)

Module Validator.
Import Utf8 Regexp.

(** The pattern ["^[0-9A-Za-z-.:_]+$"] of [checkName].  Inside the class
    the [-] that follows the range [a-z] stands for itself. *)
Definition regStr : pattern :=
  {| bol := true;
     body := Plus (Class [(48, 57); (65, 90); (97, 122);
                          (45, 45); (46, 46); (58, 58); (95, 95)]);
     eol := true |}.

(** The character set the specification gives for names,
    [[0-9A-Za-z\-.:_]], written out on code points. *)
Definition spec_name_char (c : rune) : Prop :=
  48 <= c <= 57 \/ 65 <= c <= 90 \/ 97 <= c <= 122
  \/ c = 45 \/ c = 46 \/ c = 58 \/ c = 95.

#[global] Instance spec_name_char_dec c : Decision (spec_name_char c).
Proof. unfold spec_name_char. apply _. Defined.

(** [name] is a [*wrappers.StringValue]: [None] is the nil pointer. *)
Definition checkName (name : option string) : option error :=
  match name with
  | None => Some (errorsNew "nil")
  | Some value =>
    if String.eqb value "" then Some (errorsNew "empty")
    else if String.eqb value "polariadmin" then Some (errorsNew "illegal username")
    else if negb (MatchString regStr value)
         then Some (errorsNew "name contains invalid character")
    else None
  end.

Section Password.

(** [unicode.IsDigit], [unicode.IsLower] and [unicode.IsUpper] read the
    Unicode tables of the Go library; they are parameters here. *)
Variables IsDigit IsLower IsUpper : rune -> bool.

Definition spcChar : string := "!@#$%&*".

Definition classify (v : rune) : string :=
  if IsDigit v then "Number"
  else if IsLower v then "LowerCaseLetter"
  else if IsUpper v then "UpperCaseLetter"
  else if Contains spcChar (string_of_rune v) then "SpecialCharacter"
  else "OtherCharacter".

(** The slice [flag] has one slot per byte of the password, each slot
    holding the empty string; the loop writes slot [k] for the [k]-th
    rune.  A string has no more runes than bytes, so [k] is always in
    range. *)
Fixpoint fill_flags (k : nat) (rs : list rune) (flag : list string) : list string :=
  match rs with
  | [] => flag
  | v :: rest => fill_flags (S k) rest (<[k := classify v]> flag)
  end.

Definition mark (cpx : gmap string bool) (v : string) : gmap string bool :=
  <[v := true]> cpx.

Definition checkPassword (password : option string) : option error :=
  match password with
  | None => Some (errorsNew "nil")
  | Some value =>
    if String.eqb value "" then Some (errorsNew "empty")
    else if (len value <? 6) || (17 <? len value)
         then Some (errorsNew "password len need 6 ~ 17")
    else
      let flag := fill_flags 0 (runes value) (replicate (String.length value) "") in
      let cpx := fold_left mark flag ∅ in
      if (size cpx <? 2)%nat then Some (errorsNew "password security is so low")
      else None
  end.

(** The character classes of the specification that occur in a
    password: the distinct values [classify] takes on its runes. *)
Definition classes_present (value : string) : list string :=
  remove_dups (map classify (runes value)).

End Password.

(** U+00E9, two bytes in UTF-8, and a password of six of them. *)
Definition e_acute : string := String "195" (String "169" EmptyString).

Definition six_e_acute : string :=
  e_acute ++ e_acute ++ e_acute ++ e_acute ++ e_acute ++ e_acute.

(** [utf8.RuneCountInString(s)]: illegal and short encodings count as
    one rune per byte, as in [[]rune(s)]. *)
Definition RuneCountInString (s : string) : Z := Z.of_nat (length (runes s)).

Section Owner.

(** [utils.MaxOwnersLength], a constant of another package. *)
Variable MaxOwnersLength : Z.

(** [checkOwner] *)
Definition checkOwner (owner : option string) : option error :=
  match owner with
  | None => Some (errorsNew "nil")
  | Some value =>
    if String.eqb value "" then Some (errorsNew "empty")
    else if MaxOwnersLength <? RuneCountInString value
         then Some (errorsNew "owners too long")
    else None
  end.

End Owner.

(** The bytes of a string, and the strings made of ASCII bytes only. *)
Definition bytes (s : string) : list Z := map byte (list_ascii_of_string s).

Definition ascii_only (s : string) : Prop := Forall (fun b => b < 128) (bytes s).

(** [n] copies of a string, one after the other. *)
Fixpoint copies (n : nat) (s : string) : string :=
  match n with
  | O => EmptyString
  | S n' => s ++ copies n' s
  end.

End Validator.

(** ** Package sqldb: the user store *)

Module Sqldb.

(** *** Entities and tables *)

Inductive PrincipalType := PrincipalUser | PrincipalUserGroup.

#[global] Instance PrincipalType_eq_dec : EqDecision PrincipalType.
Proof. solve_decision. Defined.

(** Times are counted in seconds, as [UNIX_TIMESTAMP] and [time.Unix]
    do; [zeroTime] is the zero [time.Time] (1 January of year 1). *)
Definition zeroTime : Z := -62135596800.

(** [model.User], with the fields the store reads and writes. *)
Record User := {
  ID : string;
  Name : string;
  Password : string;
  Owner : string;
  Source : string;
  Token : string;
  TokenEnable : bool;
  Type_ : Z;
  Comment : string;
  Valid : bool;
  CreateTime : Z;
  ModifyTime : Z
}.

(** [new(model.User)] *)
Definition newUser : User :=
  {| ID := ""; Name := ""; Password := ""; Owner := ""; Source := "";
     Token := ""; TokenEnable := false; Type_ := 0; Comment := "";
     Valid := false; CreateTime := zeroTime; ModifyTime := zeroTime |}.

(** Table [user]; the columns are those the statements of the file name. *)
Record user_row := {
  id : string;
  name : string;
  password : string;
  owner : string;
  source : string;
  token : string;
  comment : string;
  flag : Z;
  user_type : Z;
  token_enable : Z;
  ctime : Z;
  mtime : Z
}.

(** Table [user_group_relation]. *)
Record relation_row := {
  rel_user_id : string;
  rel_group_id : string;
  rel_flag : Z
}.

(** Table [auth_strategy]. *)
Record strategy_row := {
  st_id : string;
  st_name : string;
  st_action : string;
  st_owner : string;
  st_comment : string;
  st_flag : Z;
  st_default : bool;
  st_revision : string
}.

(** Table [auth_strategy_resource]: the statements only name
    [strategy_id]; the other columns are kept as one payload. *)
Record resource_row := {
  res_strategy_id : string;
  res_payload : string
}.

(** Table [auth_principal], with the columns [createDefaultStrategy]
    inserts. *)
Record principal_row := {
  strategy_id : string;
  principal_id : string;
  principal_role : PrincipalType
}.

#[global] Instance user_row_eq_dec : EqDecision user_row.
Proof. solve_decision. Defined.
#[global] Instance relation_row_eq_dec : EqDecision relation_row.
Proof. solve_decision. Defined.
#[global] Instance strategy_row_eq_dec : EqDecision strategy_row.
Proof. solve_decision. Defined.

Record database := {
  user : list user_row;
  user_group_relation : list relation_row;
  auth_strategy : list strategy_row;
  auth_strategy_resource : list resource_row;
  auth_principal : list principal_row
}.

Definition with_user (t : list user_row) (d : database) : database :=
  {| user := t; user_group_relation := user_group_relation d;
     auth_strategy := auth_strategy d;
     auth_strategy_resource := auth_strategy_resource d;
     auth_principal := auth_principal d |}.

Definition with_relation (t : list relation_row) (d : database) : database :=
  {| user := user d; user_group_relation := t;
     auth_strategy := auth_strategy d;
     auth_strategy_resource := auth_strategy_resource d;
     auth_principal := auth_principal d |}.

Definition with_strategy (t : list strategy_row) (d : database) : database :=
  {| user := user d; user_group_relation := user_group_relation d;
     auth_strategy := t;
     auth_strategy_resource := auth_strategy_resource d;
     auth_principal := auth_principal d |}.

Definition with_resource (t : list resource_row) (d : database) : database :=
  {| user := user d; user_group_relation := user_group_relation d;
     auth_strategy := auth_strategy d;
     auth_strategy_resource := t;
     auth_principal := auth_principal d |}.

Definition with_principal (t : list principal_row) (d : database) : database :=
  {| user := user d; user_group_relation := user_group_relation d;
     auth_strategy := auth_strategy d;
     auth_strategy_resource := auth_strategy_resource d;
     auth_principal := t |}.

(** *** Statements

    One constructor per SQL text the file hands to [Exec], carrying the
    values bound to its placeholders. *)

Inductive statement :=
| DeleteStaleUser (name_ : string)
    (* delete from user where name = ? and flag = 1 *)
| InsertUser (id_ name_ password_ owner_ source_ token_ comment_ : string)
             (flag_ user_type_ : Z)
    (* INSERT INTO user(id, name, password, owner, source, token, comment,
       flag, user_type, ctime, mtime)
       VALUES (?,?,?,?,?,?,?,?,?,sysdate(),sysdate()) *)
| UpdateUserRow (password_ token_ comment_ : string) (token_enable_ : Z)
                (id_ : string)
    (* UPDATE user SET password = ?, token = ?, comment = ?,
       token_enable = ? WHERE id = ? AND flag = 0 *)
| FlagUser (id_ : string)
    (* UPDATE user SET flag = 1 WHERE id = ? *)
| FlagRelations (user_id_ : string)
    (* UPDATE user_group_relation SET flag = 1 WHERE user_id = ? *)
| InsertStrategy (id_ name_ action_ owner_ comment_ : string) (flag_ : Z)
                 (default_ : bool) (revision_ : string)
    (* INSERT INTO auth_strategy(id, name, action, owner, comment, flag,
       default, revision) VALUES (?,?,?,?,?,?,?,?) *)
| InsertPrincipal (strategy_id_ principal_id_ : string)
                  (principal_role_ : PrincipalType)
    (* INSERT INTO auth_principal(strategy_id, principal_id,
       principal_role) VALUES (?,?,?) *)
| FlagStrategy (name_ : string)
    (* UPDATE auth_strategy SET flag = 1 WHERE name = ? *)
| DeleteStrategyResources (name_ : string)
    (* DELETE FROM auth_strategy_resource WHERE strategy_id =
       (SELECT id FROM auth_strategy WHERE name = ?) *)
| DeleteStrategyPrincipals (name_ : string)
    (* DELETE FROM auth_principal WHERE strategy_id =
       (SELECT id FROM auth_strategy WHERE name = ?) *)
| DeletePrincipalLinks (principa_id_ : string) (principal_role_ : PrincipalType).
    (* DELETE FROM auth_principal
       WHERE principa_id = ? AND principal_role = ? *)

(** [sql.Result]: the count [RowsAffected] reports, or its error. *)
Record Result := {
  rows : Z;
  rows_err : option error
}.

Definition affected (n : nat) : Result :=
  {| rows := Z.of_nat n; rows_err := None |}.

(** A placeholder argument of an assembled statement. *)
Inductive sqlarg :=
| ArgString (s : string)
| ArgUint32 (n : Z).

(** The SELECT statements.  Those with a fixed text have a constructor
    of their own; the two listings assemble their text from the filter
    keys, and that text is kept as it is. *)
Inductive query :=
| SelectUserByID (id_ : string)
    (* ... FROM user u WHERE u.flag = 0 AND u.name != 'polariadmin'
       AND u.id = ? *)
| SelectUserByName (name_ owner_ : string)
    (* ... WHERE u.flag = 0 AND u.name != 'polariadmin'
       AND u.name = ? AND u.owner = ? *)
| SelectUsersByIDs (ids : list string)
    (* ... WHERE u.flag = 0 AND u.name != 'polarisadmin'
       AND u.id IN ( ? , ... , ? ) *)
| SelectUsersForCache (since : option Z)
    (* ... FROM user u [ WHERE u.mtime >= ? ] *)
| SelectText (text : string) (args : list sqlarg).

(** *** The world the store runs in *)

Inductive handle := Master | Slave.

Inductive call :=
| CBegin
| CTxExec (s : statement)
| CCommit
| CRollback
| CExec (s : statement)
| CQuery (h : handle) (q : query)
| CQueryRow (h : handle) (q : query)
| CCount (h : handle) (text : string) (args : list sqlarg).

(** [master] and [slave] are the databases behind the two handles of
    the store; [tx] is the working copy of the open transaction;
    [faults] holds what the driver answers to the coming calls ([None]:
    the call goes through, [Some e]: it fails with [e] and does
    nothing); [next_uuid] counts the identifiers drawn so far; [now] is
    what [sysdate()] returns; [calls] records the driver calls made. *)
Record world := {
  master : database;
  slave : database;
  tx : option database;
  faults : list (option sqlerr);
  next_uuid : nat;
  now : Z;
  calls : list call
}.

Definition set_master (d : database) (w : world) : world :=
  {| master := d; slave := slave w; tx := tx w; faults := faults w;
     next_uuid := next_uuid w; now := now w; calls := calls w |}.

Definition set_tx (t : option database) (w : world) : world :=
  {| master := master w; slave := slave w; tx := t; faults := faults w;
     next_uuid := next_uuid w; now := now w; calls := calls w |}.

Definition set_faults (f : list (option sqlerr)) (w : world) : world :=
  {| master := master w; slave := slave w; tx := tx w; faults := f;
     next_uuid := next_uuid w; now := now w; calls := calls w |}.

Definition set_next_uuid (n : nat) (w : world) : world :=
  {| master := master w; slave := slave w; tx := tx w; faults := faults w;
     next_uuid := n; now := now w; calls := calls w |}.

Definition log (c : call) (w : world) : world :=
  {| master := master w; slave := slave w; tx := tx w; faults := faults w;
     next_uuid := next_uuid w; now := now w; calls := calls w ++ [c] |}.

Definition conn (h : handle) (w : world) : database :=
  match h with Master => master w | Slave => slave w end.

(** *** A state and error monad for the store's code *)

Inductive res (A : Type) :=
| Ok (a : A)
| Err (e : error).
Arguments Ok {A} a.
Arguments Err {A} e.

Definition M (A : Type) : Type := world -> res A * world.

Definition ret {A} (a : A) : M A := fun w => (Ok a, w).

Definition fail {A} (e : error) : M A := fun w => (Err e, w).

Definition bind {A B} (m : M A) (k : A -> M B) : M B :=
  fun w =>
    match m w with
    | (Ok a, w') => k a w'
    | (Err e, w') => (Err e, w')
    end.

Notation "'let*' x ':=' c 'in' k" := (bind c (fun x => k))
  (at level 10, x name, c at level 100, k at level 200).

Notation "c ';;;' k" := (bind c (fun _ => k))
  (at level 100, k at level 200, right associativity).

(** [return f(err)] on the failure path of [m]. *)
Definition map_err {A} (f : error -> error) (m : M A) : M A :=
  fun w =>
    match m w with
    | (Ok a, w') => (Ok a, w')
    | (Err e, w') => (Err (f e), w')
    end.

(** [defer cleanup] around [body]. *)
Definition defer {A} (cleanup : world -> world) (body : M A) : M A :=
  fun w => let (r, w') := body w in (r, cleanup w').

(** *** What the file takes from its surroundings

    The connection, the schema, the SQL engine on assembled text and
    the helpers and constants of other packages. *)
Record Env := {
  (** the connection flag of the driver: an UPDATE reports the rows it
      matched when set, the rows it changed otherwise *)
  clientFoundRows : bool;
  (** the value the table gives [token_enable] when an INSERT leaves it
      out *)
  token_enable_default : Z;
  (** the column [principa_id] of [auth_principal] that the last
      statement of [cleanLinkStrategy] names; [None] when the table has
      no column of that name *)
  principa_id : option (principal_row -> string);
  (** the engine on the assembled texts of the two listings *)
  run_text : database -> string -> list sqlarg -> sqlerr + list user_row;
  count_text : database -> string -> list sqlarg -> sqlerr + Z;
  (** the bound of the retry wrapper *)
  RetryTimes : nat;
  (** [utils.NewUUID()]: the [n]-th identifier drawn *)
  NewUUID : nat -> string;
  (** [model.BuildDefaultStrategyName(id, role)] *)
  BuildDefaultStrategyName : string -> PrincipalType -> string;
  (** [commontime.Time2String(t)], read as the time the rendered text
      denotes for the engine *)
  Time2String : Z -> Z;
  (** the attribute names, constants of the package *)
  OwnerAttribute : string;
  NameAttribute : string;
  GroupIDAttribute : string
}.

(** *** The SQL engine on the statements of the file

    Strings compare byte by byte (a binary collation).  A statement
    writes the columns it names: what the definition of a table adds on
    its own (a modification time kept by the table, say) is outside the
    file and not part of the model.  An UPDATE reports the rows it
    matched when the connection sets [clientFoundRows] and the rows it
    changed otherwise. *)

Section Store.

Variable env : Env.

Definition update_where {A} `{EqDecision A}
    (p : A -> bool) (f : A -> A) (t : list A) : list A * Result :=
  (map (fun r => if p r then f r else r) t,
   affected (if clientFoundRows env
             then length (List.filter p t)
             else length (List.filter
                            (fun r => p r && negb (bool_decide (f r = r))) t))).

Definition delete_where {A} (p : A -> bool) (t : list A) : list A * Result :=
  (List.filter (fun r => negb (p r)) t, affected (length (List.filter p t))).

Definition set_credentials (password_ token_ comment_ : string)
    (token_enable_ : Z) (r : user_row) : user_row :=
  {| id := id r; name := name r; password := password_; owner := owner r;
     source := source r; token := token_; comment := comment_;
     flag := flag r; user_type := user_type r;
     token_enable := token_enable_; ctime := ctime r; mtime := mtime r |}.

Definition set_flag (f : Z) (r : user_row) : user_row :=
  {| id := id r; name := name r; password := password r; owner := owner r;
     source := source r; token := token r; comment := comment r;
     flag := f; user_type := user_type r;
     token_enable := token_enable r; ctime := ctime r; mtime := mtime r |}.

Definition set_rel_flag (f : Z) (r : relation_row) : relation_row :=
  {| rel_user_id := rel_user_id r; rel_group_id := rel_group_id r;
     rel_flag := f |}.

Definition set_st_flag (f : Z) (r : strategy_row) : strategy_row :=
  {| st_id := st_id r; st_name := st_name r; st_action := st_action r;
     st_owner := st_owner r; st_comment := st_comment r; st_flag := f;
     st_default := st_default r; st_revision := st_revision r |}.

(** [(SELECT id FROM auth_strategy WHERE name = ?)] used as a scalar:
    no row gives NULL, which equals nothing; more than one row is an
    error. *)
Definition strategy_id_named (name_ : string) (d : database)
    : sqlerr + option string :=
  match List.filter (fun s => String.eqb (st_name s) name_) (auth_strategy d) with
  | [] => inr None
  | [s] => inr (Some (st_id s))
  | _ => inl SubqueryRows
  end.

Definition same_id (key : option string) (x : string) : bool :=
  match key with
  | None => false
  | Some k => String.eqb x k
  end.

Definition exec (s : statement) (sysdate : Z) (d : database)
    : sqlerr + database * Result :=
  match s with
  | DeleteStaleUser name_ =>
    let (t, r) := delete_where
                    (fun u => String.eqb (name u) name_ && (flag u =? 1))
                    (user d) in
    inr (with_user t d, r)
  | InsertUser id_ name_ password_ owner_ source_ token_ comment_ flag_ user_type_ =>
    inr (with_user
           (user d ++
            [{| id := id_; name := name_; password := password_;
                owner := owner_; source := source_; token := token_;
                comment := comment_; flag := flag_; user_type := user_type_;
                token_enable := token_enable_default env;
                ctime := sysdate; mtime := sysdate |}]) d,
         affected 1)
  | UpdateUserRow password_ token_ comment_ token_enable_ id_ =>
    let (t, r) := update_where
                    (fun u => String.eqb (id u) id_ && (flag u =? 0))
                    (set_credentials password_ token_ comment_ token_enable_)
                    (user d) in
    inr (with_user t d, r)
  | FlagUser id_ =>
    let (t, r) := update_where (fun u => String.eqb (id u) id_)
                               (set_flag 1) (user d) in
    inr (with_user t d, r)
  | FlagRelations user_id_ =>
    let (t, r) := update_where (fun g => String.eqb (rel_user_id g) user_id_)
                               (set_rel_flag 1) (user_group_relation d) in
    inr (with_relation t d, r)
  | InsertStrategy id_ name_ action_ owner_ comment_ flag_ default_ revision_ =>
    inr (with_strategy
           (auth_strategy d ++
            [{| st_id := id_; st_name := name_; st_action := action_;
                st_owner := owner_; st_comment := comment_; st_flag := flag_;
                st_default := default_; st_revision := revision_ |}]) d,
         affected 1)
  | InsertPrincipal strategy_id_ principal_id_ principal_role_ =>
    inr (with_principal
           (auth_principal d ++
            [{| strategy_id := strategy_id_; principal_id := principal_id_;
                principal_role := principal_role_ |}]) d,
         affected 1)
  | FlagStrategy name_ =>
    let (t, r) := update_where (fun s => String.eqb (st_name s) name_)
                               (set_st_flag 1) (auth_strategy d) in
    inr (with_strategy t d, r)
  | DeleteStrategyResources name_ =>
    match strategy_id_named name_ d with
    | inl e => inl e
    | inr key =>
      let (t, r) := delete_where (fun b => same_id key (res_strategy_id b))
                                 (auth_strategy_resource d) in
      inr (with_resource t d, r)
    end
  | DeleteStrategyPrincipals name_ =>
    match strategy_id_named name_ d with
    | inl e => inl e
    | inr key =>
      let (t, r) := delete_where (fun b => same_id key (strategy_id b))
                                 (auth_principal d) in
      inr (with_principal t d, r)
    end
  | DeletePrincipalLinks principa_id_ principal_role_ =>
    match principa_id env with
    | None => inl (UnknownColumn "principa_id")
    | Some column =>
      let (t, r) := delete_where
                      (fun b => String.eqb (column b) principa_id_
                                && bool_decide (principal_role b = principal_role_))
                      (auth_principal d) in
      inr (with_principal t d, r)
    end
  end.

Definition select (q : query) (d : database) : sqlerr + list user_row :=
  match q with
  | SelectUserByID id_ =>
    inr (List.filter
           (fun u => (flag u =? 0) && negb (String.eqb (name u) "polariadmin")
                     && String.eqb (id u) id_) (user d))
  | SelectUserByName name_ owner_ =>
    inr (List.filter
           (fun u => (flag u =? 0) && negb (String.eqb (name u) "polariadmin")
                     && String.eqb (name u) name_
                     && String.eqb (owner u) owner_) (user d))
  | SelectUsersByIDs ids =>
    inr (List.filter
           (fun u => (flag u =? 0) && negb (String.eqb (name u) "polarisadmin")
                     && existsb (String.eqb (id u)) ids) (user d))
  | SelectUsersForCache None => inr (user d)
  | SelectUsersForCache (Some since) =>
    inr (List.filter (fun u => since <=? mtime u) (user d))
  | SelectText text args => run_text env d text args
  end.

(** *** The driver *)

(** Every call is recorded and first asks [faults] whether it goes
    through. *)
Definition driver {A} (c : call) (run : M A) : M A :=
  fun w =>
    let w1 := log c w in
    match faults w1 with
    | Some e :: rest => (Err (sqlError e), set_faults rest w1)
    | None :: rest => run (set_faults rest w1)
    | [] => run w1
    end.

(** [u.master.Begin()] *)
Definition Begin : M unit :=
  driver CBegin (fun w => (Ok tt, set_tx (Some (master w)) w)).

(** [tx.Exec(...)] *)
Definition tx_Exec (s : statement) : M Result :=
  driver (CTxExec s)
    (fun w =>
       match tx w with
       | None => (Err (sqlError ErrTxDone), w)
       | Some d =>
         match exec s (now w) d with
         | inl e => (Err (sqlError e), w)
         | inr (d', r) => (Ok r, set_tx (Some d') w)
         end
       end).

(** [tx.Commit()] *)
Definition tx_Commit : M unit :=
  driver CCommit
    (fun w =>
       match tx w with
       | None => (Err (sqlError ErrTxDone), w)
       | Some d => (Ok tt, set_tx None (set_master d w))
       end).

(** [_ = tx.Rollback()]: drops the working copy; after a commit there is
    none left and the call's error is thrown away. *)
Definition tx_Rollback (w : world) : world := set_tx None (log CRollback w).

(** [u.master.Exec(...)] *)
Definition db_Exec (s : statement) : M Result :=
  driver (CExec s)
    (fun w =>
       match exec s (now w) (master w) with
       | inl e => (Err (sqlError e), w)
       | inr (d', r) => (Ok r, set_master d' w)
       end).

(** [Query(...)] on one of the two handles. *)
Definition db_Query (h : handle) (q : query) : M (list user_row) :=
  driver (CQuery h q)
    (fun w =>
       match select q (conn h w) with
       | inl e => (Err (sqlError e), w)
       | inr found => (Ok found, w)
       end).

(** [QueryRow(...).Scan(...)]: the first row, [ErrNoRows] without one. *)
Definition db_QueryRow (h : handle) (q : query) : M user_row :=
  driver (CQueryRow h q)
    (fun w =>
       match select q (conn h w) with
       | inl e => (Err (sqlError e), w)
       | inr [] => (Err (sqlError ErrNoRows), w)
       | inr (r :: _) => (Ok r, w)
       end).

(** [queryEntryCount(conn, str, args)], the counting helper of the
    package. *)
Definition queryEntryCount (h : handle) (text : string) (args : list sqlarg)
    : M Z :=
  driver (CCount h text args)
    (fun w =>
       match count_text env (conn h w) text args with
       | inl e => (Err (sqlError e), w)
       | inr n => (Ok n, w)
       end).

(** *** Helpers of the repository that the file calls *)

(** Modelled from the spec: [store.Error] is declared outside this file.
    "Store errors are wrapped with a status code": a status error is
    returned as it is, a duplicate entry of the driver becomes
    [DuplicateEntryErr], every other error gets the catch-all code.  The
    nil error stays nil (the [Ok] side of [map_err]). *)
Definition store_Error (e : error) : error :=
  match e with
  | StatusError code msg => StatusError code msg
  | sqlError DuplicateEntry => StatusError DuplicateEntryErr "Duplicate entry"
  | sqlError _ => StatusError Unknown "sql"
  | errorsNew msg => StatusError Unknown msg
  end.

(** Modelled from the spec: the retry wrapper [RetryTransaction] is
    declared outside this file.  It is "a bounded retry loop that
    re-executes the entire transaction body on transient/retryable
    failures (e.g., write conflicts), with retries bounded in count and
    producing a terminal error after exhaustion"; any other outcome of
    the body is returned at once. *)
Definition transient (e : error) : bool :=
  match e with
  | sqlError Deadlock => true
  | sqlError BadConnection => true
  | _ => false
  end.

Fixpoint retry (n : nat) (last : res unit) (body : M unit) : M unit :=
  fun w =>
    match n with
    | O => (last, w)
    | S n' =>
      match body w with
      | (Ok a, w') => (Ok a, w')
      | (Err e, w') =>
        if transient e then retry n' (Err e) body w' else (Err e, w')
      end
    end.

Definition RetryTransaction (label : string) (body : M unit) : M unit :=
  retry (RetryTimes env) (Ok tt) body.

Definition newUUID : M string :=
  fun w => (Ok (NewUUID env (next_uuid w)), set_next_uuid (S (next_uuid w)) w).

(** Modelled from the spec: [utils.IsWildName] is declared outside this
    file; a wildcard value is "a value ending in a designated wildcard
    marker", the marker being that of the filter ["svc*"]. *)
Definition IsWildName (v : string) : bool :=
  match String.length v with
  | O => false
  | S n => String.eqb (String.substring n 1 v) "*"
  end.

(** [v[:len(v)-1]] *)
Definition chop (v : string) : string :=
  String.substring 0 (String.length v - 1) v.

(** *** Writes *)

(** [cleanInValidUser] *)
Definition cleanInValidUser (name_ : string) : M unit :=
  let* _ := db_Exec (DeleteStaleUser name_) in
  ret tt.

(** [createDefaultStrategy] *)
Definition createDefaultStrategy (role : PrincipalType) (id_ owner_ : string)
    : M unit :=
  let* strategyID := newUUID in
  let* revision := newUUID in
  let* _ := tx_Exec (InsertStrategy strategyID
                       (BuildDefaultStrategyName env id_ role)
                       "READ_WRITE" owner_ "default user auth_strategy"
                       0 true revision) in
  let* _ := tx_Exec (InsertPrincipal strategyID id_ role) in
  ret tt.

(** [cleanLinkStrategy]; the parameter [role] is not read. *)
Definition cleanLinkStrategy (role : PrincipalType) (id_ : string) : M unit :=
  let* _ := tx_Exec (FlagStrategy
                       (BuildDefaultStrategyName env id_ PrincipalUserGroup)) in
  let* _ := tx_Exec (DeleteStrategyResources
                       (BuildDefaultStrategyName env id_ PrincipalUserGroup)) in
  let* _ := tx_Exec (DeleteStrategyPrincipals
                       (BuildDefaultStrategyName env id_ PrincipalUserGroup)) in
  let* _ := tx_Exec (DeletePrincipalLinks id_ PrincipalUserGroup) in
  ret tt.

(** [checkAffectedRows] *)
Definition checkAffectedRows (label : string) (result : Result) (count : Z)
    : option error :=
  match rows_err result with
  | Some err => Some err
  | None =>
    if rows result =? count then None
    else Some (StatusError AffectedRowsNotMatch "affected rows not match")
  end.

Definition addUser (u : User) : M unit :=
  let* _ := Begin in
  defer tx_Rollback
    (let* _ := tx_Exec (InsertUser (ID u) (Name u) (Password u) (Owner u)
                          (Source u) (Token u) (Comment u) 0 (Type_ u)) in
     let* _ := map_err store_Error
                 (createDefaultStrategy PrincipalUser (ID u) (Owner u)) in
     tx_Commit).

Definition missing (u : User) : bool :=
  String.eqb (ID u) "" || String.eqb (Name u) ""
  || String.eqb (Token u) "" || String.eqb (Password u) "".

(** [AddUser] *)
Definition AddUser (u : User) : M unit :=
  if missing u then
    fail (StatusError EmptyParamsErr
            ("add user missing some params, id is " ++ ID u
             ++ ", name is " ++ Name u))
  else
    let* _ := cleanInValidUser (Name u) in
    map_err store_Error (RetryTransaction "addUser" (addUser u)).

Definition updateUser (u : User) : M unit :=
  let* _ := Begin in
  defer tx_Rollback
    (let tokenEnable := if TokenEnable u then 1 else 0 in
     let* _ := tx_Exec (UpdateUserRow (Password u) (Token u) (Comment u)
                          tokenEnable (ID u)) in
     tx_Commit).

(** [UpdateUser] *)
Definition UpdateUser (u : User) : M unit :=
  if missing u then
    fail (StatusError EmptyParamsErr
            ("update user missing some params, id is " ++ ID u
             ++ ", name is " ++ Name u))
  else
    map_err store_Error (RetryTransaction "updateUser" (updateUser u)).

Definition deleteUser (id_ : string) : M unit :=
  let* _ := Begin in
  defer tx_Rollback
    (let* _ := tx_Exec (FlagUser id_) in
     let* _ := tx_Exec (FlagRelations id_) in
     let* _ := cleanLinkStrategy PrincipalUser id_ in
     tx_Commit).

(** [DeleteUser] *)
Definition DeleteUser (userId : string) : M unit :=
  if String.eqb userId "" then
    fail (StatusError EmptyParamsErr "delete user id parameter missing")
  else
    map_err store_Error (RetryTransaction "deleteUser" (deleteUser userId)).

(** *** Reads *)

(** What [Scan] stores for the eight columns the single-row lookups
    select; the other fields keep the values of [new(model.User)]. *)
Definition scanUser (r : user_row) : User :=
  {| ID := id r; Name := name r; Password := password r; Owner := owner r;
     Source := source r; Token := token r;
     TokenEnable := token_enable r =? 1; Type_ := user_type r;
     Comment := Comment newUser; Valid := Valid newUser;
     CreateTime := CreateTime newUser; ModifyTime := ModifyTime newUser |}.

(** The switch on the error of [row.Scan]: [sql.ErrNoRows] gives
    [nil, nil], any other error is wrapped. *)
Definition scanned (m : M user_row) : M (option User) :=
  fun w =>
    match m w with
    | (Ok r, w') => (Ok (Some (scanUser r)), w')
    | (Err (sqlError ErrNoRows), w') => (Ok None, w')
    | (Err e, w') => (Err (store_Error e), w')
    end.

(** [GetUser] *)
Definition GetUser (id_ : string) : M (option User) :=
  scanned (db_QueryRow Master (SelectUserByID id_)).

(** [GetUserByName] *)
Definition GetUserByName (name_ ownerId : string) : M (option User) :=
  scanned (db_QueryRow Master (SelectUserByName name_ ownerId)).

(** [fetchRown2User]; scanning a row of the table into the eleven
    targets does not fail. *)
Definition fetchRown2User (r : user_row) : User :=
  {| ID := id r; Name := name r; Password := password r; Owner := owner r;
     Source := source r; Token := token r;
     TokenEnable := token_enable r =? 1; Type_ := user_type r;
     Comment := Comment newUser; Valid := flag r =? 0;
     CreateTime := ctime r; ModifyTime := mtime r |}.

(** [GetUserByIDS]; the nil slice and the empty slice are both [[]]. *)
Definition GetUserByIDS (ids : list string) : M (list User) :=
  match ids with
  | [] => ret []
  | _ =>
    map_err store_Error
      (let* found := db_Query Master (SelectUsersByIDs ids) in
       ret (map fetchRown2User found))
  end.

(** [collectUsers]; the parameter [handler] is not read, the query runs
    on [u.master]. *)
Definition collectUsers (handler : handle) (q : query) : M (list User) :=
  map_err store_Error
    (let* found := db_Query Master q in
     ret (map fetchRown2User found)).

(** [GetUsersForCache] *)
Definition GetUsersForCache (mtime_ : Z) (firstUpdate : bool) : M (list User) :=
  collectUsers Master
    (SelectUsersForCache
       (if firstUpdate then None else Some (Time2String env mtime_))).

(** The state of one of the listing loops: the two texts and the
    arguments gathered so far. *)
Record assembled := {
  getSql : string;
  countSql : string;
  args : list sqlarg
}.

Definition extend (piece : string) (new_args : list sqlarg) (a : assembled)
    : assembled :=
  {| getSql := getSql a ++ piece; countSql := countSql a ++ piece;
     args := args a ++ new_args |}.

(** One turn of the loop of [listUsers]. *)
Definition listUsers_step (a : assembled) (kv : string * string) : assembled :=
  let (k, v) := kv in
  let a := extend " AND " [] a in
  if String.eqb k (NameAttribute env) then
    if IsWildName v
    then extend (" " ++ k ++ " like ? ") [ArgString (chop v ++ "%")] a
    else extend (" " ++ k ++ " = ? ") [ArgString v] a
  else if String.eqb k (OwnerAttribute env) then
    extend " (id = ? OR owner = ?) " [ArgString v; ArgString v] a
  else extend (" " ++ k ++ " = ? ") [ArgString v] a.

(** [listUsers].  The order in which Go ranges over a map is not fixed;
    the loop is run in the order of [map_to_list]. *)
Definition listUsers (filters : gmap string string) (offset limit : Z)
    : M (Z * list User) :=
  let a := fold_left listUsers_step (map_to_list filters)
             {| getSql := "
	SELECT id, name, password, owner, source
		, token, token_enable, user_type, UNIX_TIMESTAMP(ctime)
		, UNIX_TIMESTAMP(mtime), flag
	FROM user
	WHERE flag = 0  AND name != 'polarisadmin' 
	";
                countSql := "SELECT COUNT(*) FROM user  WHERE flag = 0 ";
                args := [] |} in
  let* count := map_err store_Error
                  (queryEntryCount Master (countSql a) (args a)) in
  let* users := collectUsers Master
                  (SelectText (getSql a ++ " ORDER BY mtime LIMIT ? , ?")
                     (args a ++ [ArgUint32 offset; ArgUint32 limit])) in
  ret (count, users).

Definition userLinkGroupAttributeMapping : gmap string string :=
  list_to_map [("user_id", "ul.user_id"); ("group_name", "ug.name");
               ("user_name", "u.name")].

(** One turn of the loop of [listGroupUsers]. *)
Definition listGroupUsers_step (a : assembled) (kv : string * string)
    : assembled :=
  let (k, v) := kv in
  let k := match userLinkGroupAttributeMapping !! k with
           | Some newK => newK
           | None => k
           end in
  if IsWildName v
  then extend (" AND " ++ k ++ " like ?") [ArgString (chop v ++ "%")] a
  else extend (" AND " ++ k ++ " = ?") [ArgString v] a.

(** [listGroupUsers].  The map [filters] belongs to the caller and is
    written in place: the function returns the map as it leaves it next
    to its results. *)
Definition listGroupUsers (filters : gmap string string) (offset limit : Z)
    : world -> gmap string string * res (Z * list User) * world :=
  fun w =>
    match filters !! GroupIDAttribute env with
    | None =>
      (filters, Err (StatusError EmptyParamsErr "group_id is missing"), w)
    | Some group =>
      let filters := delete (GroupIDAttribute env) (<["ug.group_id" := group]> filters) in
      let a := fold_left listGroupUsers_step (map_to_list filters)
                 {| getSql := "
		SELECT u.id, name, password, owner, source
			, token, token_enable, user_type, UNIX_TIMESTAMP(u.ctime)
			, UNIX_TIMESTAMP(u.mtime), u.flag
		FROM user_group_relation ug
			LEFT JOIN user u ON ug.user_id = u.id AND u.flag = 0 AND ug.flag = 0
		WHERE 1=1 AND u.name != 'polarisadmin' 
	";
                    countSql := "
		SELECT COUNT(*)
		FROM user_group_relation ug
			LEFT JOIN user u ON ug.user_id = u.id AND u.flag = 0 AND ug.flag = 0
		WHERE 1=1 AND u.name != 'polarisadmin' 
	";
                    args := [] |} in
      let body :=
        let* count := queryEntryCount Slave (countSql a) (args a) in
        let* users := collectUsers Master
                        (SelectText (getSql a ++ " ORDER BY u.mtime LIMIT ? , ?")
                           (args a ++ [ArgUint32 offset; ArgUint32 limit])) in
        ret (count, users) in
      let (r, w') := body w in
      (filters, r, w')
    end.

(** [GetUsers] *)
Definition GetUsers (filters : gmap string string) (offset limit : Z)
    : world -> gmap string string * res (Z * list User) * world :=
  fun w =>
    match filters !! "group_id" with
    | Some _ => listGroupUsers filters offset limit w
    | None =>
      let (r, w') := listUsers filters offset limit w in
      (filters, r, w')
    end.

End Store.

(** *** Observations on a run *)

(** The coming driver call goes through. *)
Definition goes_through (w : world) : bool :=
  match faults w with
  | Some _ :: _ => false
  | _ => true
  end.

Definition is_reclaim (c : call) : bool :=
  match c with
  | CExec (DeleteStaleUser _) => true
  | _ => false
  end.

Definition is_begin (c : call) : bool :=
  match c with
  | CBegin => true
  | _ => false
  end.

Definition is_direct_exec (c : call) : bool :=
  match c with
  | CExec _ => true
  | _ => false
  end.

(** The calls a run adds to the record. *)
Definition calls_since (w w' : world) : list call :=
  drop (length (calls w)) (calls w').

(** [triple P m Q]: from a world in [P], [m] ends with a result and a
    world in [Q]. *)
Definition triple {A} (P : world -> Prop) (m : M A)
    (Q : res A -> world -> Prop) : Prop :=
  forall w, P w -> Q (fst (m w)) (snd (m w)).

(** The record of calls is [base] followed by calls that are no direct
    [Exec] on the handle. *)
Definition extends_in_tx (base : list call) (w : world) : Prop :=
  exists cs, calls w = (base ++ cs)%list
             /\ Forall (fun c => is_direct_exec c = false) cs.

(** A condition on worlds that the record of calls and the pending
    answers do not touch. *)
Definition quiet (I : world -> Prop) : Prop :=
  forall w, I w -> forall c f, I (set_faults f (log c w)) /\ I (log c w).

(** What an update of a user row leaves alone. *)
Definition same_identity (r r' : user_row) : Prop :=
  id r' = id r /\ name r' = name r /\ owner r' = owner r
  /\ source r' = source r /\ flag r' = flag r /\ user_type r' = user_type r
  /\ ctime r' = ctime r /\ mtime r' = mtime r.

(** Two states of the store that differ at most in the password, token,
    comment and token-enable columns of the user table. *)
Definition same_but_credentials (d d' : database) : Prop :=
  Forall2 same_identity (user d) (user d')
  /\ user_group_relation d' = user_group_relation d
  /\ auth_strategy d' = auth_strategy d
  /\ auth_strategy_resource d' = auth_strategy_resource d
  /\ auth_principal d' = auth_principal d.

(** A result that is a success or an error of the driver. *)
Definition from_driver {A} (r : res A) : Prop :=
  match r with
  | Ok _ => True
  | Err e => exists s, e = sqlError s
  end.

(** The statement C3 makes of [UpdateUser], for an expected count: on a
    row that is there and not soft-deleted, a reported count other than
    the expected one is answered with [AffectedRowsNotMatch]. *)
Definition reports_mismatch (env : Env) (expected : Z) : Prop :=
  forall (u : User) (w : world) (d : database) (r : Result),
    missing u = false ->
    faults w = [] ->
    (exists row, In row (user (master w)) /\ id row = ID u /\ flag row = 0) ->
    exec env (UpdateUserRow (Password u) (Token u) (Comment u)
                (if TokenEnable u then 1 else 0) (ID u))
         (now w) (master w) = inr (d, r) ->
    rows r <> expected ->
    fst (UpdateUser env u w)
    = Err (StatusError AffectedRowsNotMatch "affected rows not match").

(** *** A deployment and some stores for the examples *)

(** Modelled from the spec: [model.BuildDefaultStrategyName] is declared
    outside this file; the name is "deterministically derived as
    [default-strategy-<principalID>] or group-scoped equivalent". *)
Definition default_strategy_name (id_ : string) (role : PrincipalType) : string :=
  match role with
  | PrincipalUser => "default-strategy-" ++ id_
  | PrincipalUserGroup => "default-strategy-group-" ++ id_
  end.

(** The driver's default for [clientFoundRows], a table without a column
    [principa_id], an engine that finds nothing for assembled text. *)
Definition example_env : Env :=
  {| clientFoundRows := false;
     token_enable_default := 1;
     principa_id := None;
     run_text := fun _ _ _ => inr [];
     count_text := fun _ _ _ => inr 0;
     RetryTimes := 10;
     NewUUID := fun n => "uuid-" ++ NilEmpty.string_of_uint (Nat.to_uint n);
     BuildDefaultStrategyName := default_strategy_name;
     Time2String := fun t => t;
     OwnerAttribute := "owner";
     NameAttribute := "name";
     GroupIDAttribute := "group_id" |}.

Definition empty_database : database :=
  {| user := []; user_group_relation := []; auth_strategy := [];
     auth_strategy_resource := []; auth_principal := [] |}.

Definition world_of (d : database) (f : list (option sqlerr)) : world :=
  {| master := d; slave := d; tx := None; faults := f; next_uuid := 0;
     now := 1700000000; calls := [] |}.

Definition alice_row : user_row :=
  {| id := "u1"; name := "alice"; password := "secret1A"; owner := "";
     source := "internal"; token := "tok-1"; comment := "first";
     flag := 0; user_type := 1; token_enable := 1;
     ctime := 1600000000; mtime := 1600000500 |}.

Definition admin_row : user_row :=
  {| id := "u0"; name := "polariadmin"; password := "secret0A"; owner := "";
     source := "internal"; token := "tok-0"; comment := "";
     flag := 0; user_type := 0; token_enable := 1;
     ctime := 1600000000; mtime := 1600000000 |}.

Definition bob_tombstone : user_row :=
  {| id := "u2"; name := "bob"; password := "secret2B"; owner := "u1";
     source := "internal"; token := "tok-2"; comment := "";
     flag := 1; user_type := 2; token_enable := 0;
     ctime := 1600000100; mtime := 1600000900 |}.

Definition users_database : database :=
  with_user [admin_row; alice_row; bob_tombstone] empty_database.

(** [alice_row] as a [model.User], for a call of [AddUser] or
    [UpdateUser]. *)
Definition alice : User :=
  {| ID := "u1"; Name := "alice"; Password := "secret1A"; Owner := "";
     Source := "internal"; Token := "tok-1"; TokenEnable := true;
     Type_ := 1; Comment := "first"; Valid := true;
     CreateTime := zeroTime; ModifyTime := zeroTime |}.

Definition alice_new_password : User :=
  {| ID := "u1"; Name := "alice"; Password := "secret9Z"; Owner := "";
     Source := "internal"; Token := "tok-1"; TokenEnable := true;
     Type_ := 1; Comment := "first"; Valid := true;
     CreateTime := zeroTime; ModifyTime := zeroTime |}.

(** A store that holds the user ["u1"] together with her default
    strategy as [createDefaultStrategy] makes it, one resource bound to
    the strategy. *)
Definition provisioned (env : Env) : database :=
  {| user := [alice_row];
     user_group_relation := [];
     auth_strategy :=
       [{| st_id := "s1";
           st_name := BuildDefaultStrategyName env "u1" PrincipalUser;
           st_action := "READ_WRITE"; st_owner := "";
           st_comment := "default user auth_strategy"; st_flag := 0;
           st_default := true; st_revision := "r1" |}];
     auth_strategy_resource :=
       [{| res_strategy_id := "s1"; res_payload := "namespace:default" |}];
     auth_principal :=
       [{| strategy_id := "s1"; principal_id := "u1";
           principal_role := PrincipalUser |}] |}.

(** The deployment of the examples on a table whose column
    [principa_id] is the [principal_id] the insert path writes. *)
Definition lenient_env : Env :=
  {| clientFoundRows := clientFoundRows example_env;
     token_enable_default := token_enable_default example_env;
     principa_id := Some principal_id;
     run_text := run_text example_env;
     count_text := count_text example_env;
     RetryTimes := RetryTimes example_env;
     NewUUID := NewUUID example_env;
     BuildDefaultStrategyName := BuildDefaultStrategyName example_env;
     Time2String := Time2String example_env;
     OwnerAttribute := OwnerAttribute example_env;
     NameAttribute := NameAttribute example_env;
     GroupIDAttribute := GroupIDAttribute example_env |}.

(** The store keeps the strategies and the resource bindings of [d]. *)
Definition same_strategies (d d' : database) : Prop :=
  auth_strategy d' = auth_strategy d
  /\ auth_strategy_resource d' = auth_strategy_resource d.

(** What a caller reads in a user that a multi-row query built from the
    row [r]: the six text columns as they are, the token-enable column
    compared with 1, the type, the two times, [Valid] exactly when the
    row is not soft-deleted; the comment is not among the columns
    selected and stays empty. *)
Definition reads_row (r : user_row) (U : User) : Prop :=
  ID U = id r /\ Name U = name r /\ Password U = password r
  /\ Owner U = owner r /\ Source U = source r /\ Token U = token r
  /\ TokenEnable U = (token_enable r =? 1) /\ Type_ U = user_type r
  /\ Valid U = (flag r =? 0)
  /\ CreateTime U = ctime r /\ ModifyTime U = mtime r
  /\ Comment U = ""%string.

(** *** Further observations *)

(** A run that leaves the two databases, the open transaction, the
    identifiers drawn and the clock as they were. *)
Definition same_store (w w' : world) : Prop :=
  master w' = master w /\ slave w' = slave w /\ tx w' = tx w
  /\ next_uuid w' = next_uuid w /\ now w' = now w.

Definition failed {A} (r : res A) : Prop :=
  match r with
  | Ok _ => False
  | Err _ => True
  end.

(** A result whose error, if any, went through [store.Error] on its way
    from the driver. *)
Definition wrapped {A} (r : res A) : Prop :=
  match r with
  | Ok _ => True
  | Err e => exists s, e = store_Error (sqlError s)
  end.


(** The number of placeholders of a text. *)
Fixpoint count_marks (text : string) : nat :=
  match text with
  | EmptyString => O
  | String c rest =>
    ((if Ascii.eqb c "?" then 1 else 0) + count_marks rest)%nat
  end.

(** A call whose assembled text has as many placeholders as it has
    arguments. *)
Definition balanced (c : call) : Prop :=
  match c with
  | CCount _ text args_ => count_marks text = length args_
  | CQuery _ (SelectText text args_) => count_marks text = length args_
  | _ => True
  end.

(** Two texts that have as many placeholders as there are arguments. *)
Definition balanced_texts (a : assembled) : Prop :=
  count_marks (getSql a) = length (args a)
  /\ count_marks (countSql a) = length (args a).

(** The committed state of a world: the two databases and the clock. *)
Definition settled (d s : database) (t : Z) (w : world) : Prop :=
  master w = d /\ slave w = s /\ now w = t.

(** A transaction is open on a working copy that satisfies [P], over a
    committed state that is still the one it started from. *)
Definition in_tx (d s : database) (t : Z) (P : database -> Prop) (w : world)
    : Prop :=
  settled d s t w /\ exists c, tx w = Some c /\ P c.

(** How a write ends: the slave and the clock as they were; the master
    in a state that satisfies [good] on success and as it was on
    failure. *)
Definition outcome {A} (d s : database) (t : Z) (good : database -> Prop)
    (r : res A) (w : world) : Prop :=
  slave w = s /\ now w = t
  /\ match r with
     | Ok _ => good (master w)
     | Err _ => master w = d
     end.

(** The store once the soft-deleted rows of a name are gone. *)
Definition reclaimed (name_ : string) (d : database) : database :=
  with_user
    (List.filter (fun u => negb (String.eqb (name u) name_ && (flag u =? 1)))
                 (user d)) d.

(** The rows a call of [AddUser] inserts. *)
Definition new_user_row (env : Env) (u : User) (sysdate : Z) : user_row :=
  {| id := ID u; name := Name u; password := Password u; owner := Owner u;
     source := Source u; token := Token u; comment := Comment u; flag := 0;
     user_type := Type_ u; token_enable := token_enable_default env;
     ctime := sysdate; mtime := sysdate |}.

Definition new_strategy_row (env : Env) (u : User) (k : nat) : strategy_row :=
  {| st_id := NewUUID env k;
     st_name := BuildDefaultStrategyName env (ID u) PrincipalUser;
     st_action := "READ_WRITE"; st_owner := Owner u;
     st_comment := "default user auth_strategy"; st_flag := 0;
     st_default := true; st_revision := NewUUID env (S k) |}.

Definition new_binding (env : Env) (u : User) (k : nat) : principal_row :=
  {| strategy_id := NewUUID env k; principal_id := ID u;
     principal_role := PrincipalUser |}.

Definition provisioned_with (env : Env) (u : User) (sysdate : Z) (k : nat)
    (d : database) : database :=
  {| user := user d ++ [new_user_row env u sysdate];
     user_group_relation := user_group_relation d;
     auth_strategy := auth_strategy d ++ [new_strategy_row env u k];
     auth_strategy_resource := auth_strategy_resource d;
     auth_principal := auth_principal d ++ [new_binding env u k] |}.




(** The resource bindings of the strategies of a given name. *)
Definition resources_of (name_ : string) (d : database) : list resource_row :=
  List.filter
    (fun b => existsb (fun s => String.eqb (st_name s) name_
                                && String.eqb (st_id s) (res_strategy_id b))
                      (auth_strategy d))
    (auth_strategy_resource d).

End Sqldb.

(** * Properties *)

(** ** The matcher agrees with the language of the expression *)

Module RegexpFacts.
Import Utf8 Regexp.
Local Open Scope list_scope.

Lemma Lang_Seq_inv r1 r2 l :
  Lang (Seq r1 r2) l ->
  exists l1 l2, l = l1 ++ l2 /\ Lang r1 l1 /\ Lang r2 l2.
Proof. inversion 1; subst; eauto. Qed.

Lemma Lang_Alt_inv r1 r2 l : Lang (Alt r1 r2) l -> Lang r1 l \/ Lang r2 l.
Proof. inversion 1; subst; auto. Qed.

Lemma Lang_Eps_inv l : Lang Eps l -> l = [].
Proof. inversion 1; reflexivity. Qed.

Lemma Lang_Class_inv cs l :
  Lang (Class cs) l -> exists c, l = [c] /\ in_ranges cs c = true.
Proof. inversion 1; subst; eauto. Qed.

Lemma nullable_Lang r : nullable r = true <-> Lang r [].
Proof.
  induction r as [| | cs | r1 IH1 r2 IH2 | r1 IH1 r2 IH2 | r IH]; simpl.
  - split; [discriminate | inversion 1].
  - split; [constructor | reflexivity].
  - split; [discriminate | inversion 1].
  - rewrite andb_true_iff, IH1, IH2. split.
    + intros [H1 H2]. apply (LSeq _ _ [] [] H1 H2).
    + intros H. apply Lang_Seq_inv in H as (l1 & l2 & Heq & H1 & H2).
      symmetry in Heq. apply app_eq_nil in Heq as [-> ->]. auto.
  - rewrite orb_true_iff, IH1, IH2. split.
    + intros [H | H]; [apply LAltL | apply LAltR]; exact H.
    + apply Lang_Alt_inv.
  - split; [constructor | reflexivity].
Qed.

Lemma star_cons r c l :
  Lang (Star r) (c :: l) ->
  exists l1 l2, l = l1 ++ l2 /\ Lang r (c :: l1) /\ Lang (Star r) l2.
Proof.
  remember (Star r) as sr eqn:Hr. remember (c :: l) as cl eqn:Hcl.
  intros H. revert r c l Hr Hcl.
  induction H as [| | | | | | r0 l1 l2 H1 _ H2 IH2]; intros r' c' l' Hr Hcl;
    try discriminate.
  injection Hr as ->.
  destruct l1 as [| x l1].
  - simpl in Hcl. apply (IH2 r' c' l' eq_refl Hcl).
  - simpl in Hcl. injection Hcl as Hx Hl. subst x l'.
    exists l1, l2. auto.
Qed.

Lemma deriv_Lang c r : forall l, Lang (deriv c r) l <-> Lang r (c :: l).
Proof.
  induction r as [| | cs | r1 IH1 r2 IH2 | r1 IH1 r2 IH2 | r IH]; intros l; simpl.
  - split; inversion 1.
  - split; inversion 1.
  - destruct (in_ranges cs c) eqn:Hc; split; intros H.
    + apply Lang_Eps_inv in H as ->. constructor. exact Hc.
    + apply Lang_Class_inv in H as (c0 & Heq & _).
      injection Heq as _ ->. constructor.
    + inversion H.
    + apply Lang_Class_inv in H as (c0 & Heq & Hin).
      injection Heq as -> _. congruence.
  - destruct (nullable r1) eqn:Hn; split; intros H.
    + apply Lang_Alt_inv in H as [H | H].
      * apply Lang_Seq_inv in H as (l1 & l2 & -> & H1 & H2).
        apply IH1 in H1. apply (LSeq _ _ (c :: l1) l2 H1 H2).
      * apply IH2 in H. apply nullable_Lang in Hn.
        apply (LSeq _ _ [] (c :: l) Hn H).
    + apply Lang_Seq_inv in H as (l1 & l2 & Heq & H1 & H2).
      destruct l1 as [| x l1]; simpl in Heq.
      * subst l2. apply LAltR. apply IH2. exact H2.
      * injection Heq as <- ->. apply LAltL.
        apply LSeq; [apply IH1; exact H1 | exact H2].
    + apply Lang_Seq_inv in H as (l1 & l2 & -> & H1 & H2).
      apply IH1 in H1. apply (LSeq _ _ (c :: l1) l2 H1 H2).
    + apply Lang_Seq_inv in H as (l1 & l2 & Heq & H1 & H2).
      destruct l1 as [| x l1]; simpl in Heq.
      * apply nullable_Lang in H1. congruence.
      * injection Heq as <- ->.
        apply LSeq; [apply IH1; exact H1 | exact H2].
  - split; intros H; apply Lang_Alt_inv in H as [H | H];
      solve [apply LAltL; apply IH1; exact H | apply LAltR; apply IH2; exact H].
  - split; intros H.
    + apply Lang_Seq_inv in H as (l1 & l2 & -> & H1 & H2).
      apply IH in H1. apply (LStarApp _ (c :: l1) l2 H1 H2).
    + apply star_cons in H as (l1 & l2 & -> & H1 & H2).
      apply LSeq; [apply IH; exact H1 | exact H2].
Qed.

Lemma matches_Lang l : forall r, matches r l = true <-> Lang r l.
Proof.
  induction l as [| c l IH]; intros r; simpl.
  - apply nullable_Lang.
  - rewrite IH. apply deriv_Lang.
Qed.

Lemma Lang_Eps_l r l : Lang (Seq Eps r) l <-> Lang r l.
Proof.
  split; intros H.
  - apply Lang_Seq_inv in H as (l1 & l2 & -> & H1 & H2).
    apply Lang_Eps_inv in H1 as ->. exact H2.
  - apply (LSeq _ _ [] l LEps H).
Qed.

Lemma Lang_Eps_r r l : Lang (Seq r Eps) l <-> Lang r l.
Proof.
  split; intros H.
  - apply Lang_Seq_inv in H as (l1 & l2 & -> & H1 & H2).
    apply Lang_Eps_inv in H2 as ->. rewrite app_nil_r. exact H1.
  - rewrite <- (app_nil_r l). apply (LSeq _ _ l [] H LEps).
Qed.

Lemma Lang_Star_Class cs l :
  Lang (Star (Class cs)) l <-> Forall (fun c => in_ranges cs c = true) l.
Proof.
  split.
  - remember (Star (Class cs)) as sr eqn:Hr. intros H. revert Hr.
    induction H as [| | | | | | r0 l1 l2 H1 _ H2 IH2]; intros Hr;
      try discriminate.
    + constructor.
    + injection Hr as ->.
      apply Lang_Class_inv in H1 as (c & -> & Hc).
      constructor; [exact Hc | apply IH2; reflexivity].
  - induction 1 as [| c l Hc _ IH].
    + constructor.
    + apply (LStarApp _ [c] l); [constructor; exact Hc | exact IH].
Qed.

Lemma Lang_Plus_Class cs l :
  Lang (Plus (Class cs)) l <->
  l <> [] /\ Forall (fun c => in_ranges cs c = true) l.
Proof.
  unfold Plus. split.
  - intros H. apply Lang_Seq_inv in H as (l1 & l2 & -> & H1 & H2).
    apply Lang_Class_inv in H1 as (c & -> & Hc).
    apply Lang_Star_Class in H2.
    split; [discriminate | constructor; assumption].
  - intros [Hne HF]. destruct l as [| c l]; [congruence |].
    inversion HF; subst.
    apply (LSeq _ _ [c] l); [constructor; assumption | apply Lang_Star_Class; assumption].
Qed.

(** A pattern anchored at both ends matches exactly the texts of its
    body. *)
Lemma MatchString_anchored r s :
  MatchString {| bol := true; body := r; eol := true |} s = true <->
  Lang r (runes s).
Proof.
  unfold MatchString. simpl.
  rewrite matches_Lang, Lang_Eps_l, Lang_Eps_r. reflexivity.
Qed.

End RegexpFacts.

(** ** The validator *)

Module ValidatorFacts.
Import Utf8 Regexp RegexpFacts Validator.
Local Open Scope list_scope.

Lemma runes_nonempty s : s <> EmptyString -> runes s <> [].
Proof.
  destruct s as [| c0 t0]; [congruence |]. intros _. simpl.
  repeat case_match; discriminate.
Qed.

(** A string has no more runes than bytes: the index the loop of
    [checkPassword] writes at is within the slice of flags. *)
Lemma runes_length s : (length (runes s) <= String.length s)%nat.
Proof.
  remember (String.length s) as n eqn:Hn. revert s Hn.
  induction n as [n IH] using lt_wf_ind. intros s Hn.
  destruct s as [| c0 t0]; [simpl; lia |].
  assert (forall t, (String.length t < n)%nat ->
                    (length (runes t) <= String.length t)%nat) as IH'.
  { intros t Ht. apply (IH (String.length t) Ht t eq_refl). }
  clear IH. simpl in Hn. subst n. simpl.
  pose proof (IH' t0 ltac:(simpl; lia)) as H0.
  remember (runes t0) as R0 eqn:E0. clear E0.
  destruct (first (byte c0)) as [| | size lo hi]; [simpl; lia | simpl; lia |].
  destruct t0 as [| c1 t1]; [simpl in *; lia |].
  pose proof (IH' t1 ltac:(simpl; lia)) as H1.
  remember (runes t1) as R1 eqn:E1. clear E1.
  destruct ((byte c1 <? lo) || (hi <? byte c1)); [simpl in *; lia |].
  destruct (size <=? 2)%nat; [simpl in *; lia |].
  destruct t1 as [| c2 t2]; [simpl in *; lia |].
  pose proof (IH' t2 ltac:(simpl; lia)) as H2.
  remember (runes t2) as R2 eqn:E2. clear E2.
  destruct (negb (cont (byte c2))); [simpl in *; lia |].
  destruct (size <=? 3)%nat; [simpl in *; lia |].
  destruct t2 as [| c3 t3]; [simpl in *; lia |].
  pose proof (IH' t3 ltac:(simpl; lia)) as H3.
  remember (runes t3) as R3 eqn:E3. clear E3.
  destruct (negb (cont (byte c3))); simpl in *; lia.
Qed.

Lemma name_class_spec c :
  in_ranges [(48, 57); (65, 90); (97, 122); (45, 45); (46, 46); (58, 58); (95, 95)] c
  = true <-> spec_name_char c.
Proof.
  unfold in_ranges, spec_name_char. simpl.
  rewrite !orb_true_iff, !andb_true_iff, !Z.leb_le. lia.
Qed.

Lemma regStr_matches s :
  MatchString regStr s = true <->
  s <> EmptyString /\ Forall spec_name_char (runes s).
Proof.
  unfold regStr. rewrite MatchString_anchored, Lang_Plus_Class.
  split.
  - intros [Hne HF]. split.
    + intros ->. apply Hne. reflexivity.
    + eapply Forall_impl; [exact HF |]. intros c. apply name_class_spec.
  - intros [Hne HF]. split.
    + apply runes_nonempty. exact Hne.
    + eapply Forall_impl; [exact HF |]. intros c. apply name_class_spec.
Qed.

Lemma checkName_passes s :
  checkName (Some s) = None <->
  s <> EmptyString /\ s <> "polariadmin"%string /\ Forall spec_name_char (runes s).
Proof.
  unfold checkName.
  destruct (String.eqb_spec s ""%string) as [-> | Hne].
  { split; [discriminate | intros [H _]; congruence]. }
  destruct (String.eqb_spec s "polariadmin"%string) as [-> | Hadm].
  { split; [discriminate | intros (_ & H & _); congruence]. }
  destruct (MatchString regStr s) eqn:Hm; simpl.
  - apply regStr_matches in Hm as [_ HF]. tauto.
  - split; [discriminate |]. intros (_ & _ & HF).
    assert (MatchString regStr s = true) by (apply regStr_matches; auto).
    congruence.
Qed.

(** C7: [checkName] fails exactly when the name is absent, empty, the
    reserved administrator name, or holds a character outside
    [[0-9A-Za-z\-.:_]]; it rejects ["polariadmin"] and ["bad user!"] and
    accepts ["svc-user_01"]. *)
Theorem checkName_fails_exactly (name : option string) :
  (checkName name <> None <->
   name = None \/ name = Some ""%string \/ name = Some "polariadmin"%string
   \/ exists s c, name = Some s /\ In c (runes s) /\ ~ spec_name_char c)
  /\ checkName (Some "polariadmin"%string) <> None
  /\ checkName (Some "bad user!"%string) <> None
  /\ checkName (Some "svc-user_01"%string) = None.
Proof.
  split; [| repeat split; vm_compute; congruence].
  destruct name as [s |]; [| simpl; split; [auto | discriminate]].
  split.
  - intros Hfail.
    destruct (String.eqb_spec s ""%string) as [-> | Hne]; [auto |].
    destruct (String.eqb_spec s "polariadmin"%string) as [-> | Hadm]; [auto |].
    do 3 right.
    destruct (decide (Forall spec_name_char (runes s))) as [HF | HF].
    + exfalso. apply Hfail. apply checkName_passes. auto.
    + apply not_Forall_Exists in HF; [| apply _].
      apply Exists_exists in HF as (c & Hin & Hc).
      exists s, c. split; [reflexivity |].
      split; [apply list_elem_of_In; exact Hin | exact Hc].
  - intros H Hpass. apply checkName_passes in Hpass as (Hne & Hadm & HF).
    destruct H as [H | [H | [H | (s' & c & Hs & Hin & Hc)]]];
      try discriminate; try (injection H as ->; congruence).
    injection Hs as <-. rewrite Forall_forall in HF.
    apply Hc, HF, list_elem_of_In, Hin.
Qed.

(** A password that passes has between 6 and 17 bytes. *)
Lemma checkPassword_length IsDigit IsLower IsUpper password :
  checkPassword IsDigit IsLower IsUpper password = None ->
  exists value, password = Some value /\ value <> ""%string
                /\ 6 <= len value <= 17.
Proof.
  unfold checkPassword. destruct password as [value |]; [| discriminate].
  destruct (String.eqb_spec value ""%string) as [-> | Hne]; [discriminate |].
  destruct ((len value <? 6) || (17 <? len value)) eqn:Hlen; [discriminate |].
  intros _. exists value. apply orb_false_iff in Hlen as [H1 H2].
  apply Z.ltb_ge in H1, H2. auto.
Qed.

(** C6, where the code departs from the claim: a password of six
    U+00E9 has 12 bytes and one single character class, whatever the
    Unicode tables say of U+00E9, and [checkPassword] accepts it.  The
    slice of flags has one slot per byte, the loop fills one slot per
    rune, and the six slots left empty count as a second class. *)
Theorem checkPassword_accepts_one_class IsDigit IsLower IsUpper :
  runes six_e_acute = [233; 233; 233; 233; 233; 233]
  /\ len six_e_acute = 12
  /\ length (classes_present IsDigit IsLower IsUpper six_e_acute) = 1%nat
  /\ checkPassword IsDigit IsLower IsUpper (Some six_e_acute) = None.
Proof.
  split; [reflexivity |]. split; [reflexivity |].
  unfold classes_present, checkPassword.
  change (runes six_e_acute) with [233; 233; 233; 233; 233; 233].
  cbn [map fill_flags].
  unfold classify.
  destruct (IsDigit 233), (IsLower 233), (IsUpper 233);
    split; vm_compute; reflexivity.
Qed.

(** The three examples of the claim are plain ASCII, where bytes and
    runes coincide: with the Unicode tables as they are on ASCII,
    ["Abc123"] passes and ["aaaaaa"] and ["ab1"] fail. *)
Lemma checkPassword_ascii_examples IsDigit IsLower IsUpper :
  (forall r, 0 <= r < 128 -> IsDigit r = (48 <=? r) && (r <=? 57)) ->
  (forall r, 0 <= r < 128 -> IsLower r = (97 <=? r) && (r <=? 122)) ->
  (forall r, 0 <= r < 128 -> IsUpper r = (65 <=? r) && (r <=? 90)) ->
  checkPassword IsDigit IsLower IsUpper (Some "Abc123"%string) = None
  /\ checkPassword IsDigit IsLower IsUpper (Some "aaaaaa"%string)
     = Some (errorsNew "password security is so low")
  /\ checkPassword IsDigit IsLower IsUpper (Some "ab1"%string)
     = Some (errorsNew "password len need 6 ~ 17").
Proof.
  intros Hd Hl Hu. split; [| split]; [| | reflexivity].
  - unfold checkPassword.
    change (runes "Abc123") with [65; 98; 99; 49; 50; 51].
    cbn [fill_flags]. unfold classify.
    rewrite !Hd, !Hl, !Hu by lia. vm_compute. reflexivity.
  - unfold checkPassword.
    change (runes "aaaaaa") with [97; 97; 97; 97; 97; 97].
    cbn [fill_flags]. unfold classify.
    rewrite !Hd, !Hl by lia. vm_compute. reflexivity.
Qed.

End ValidatorFacts.

(** ** The user store: reads *)

Module ReadFacts.
Import Sqldb.
Local Open Scope list_scope.

Lemma filter_none {A} (p : A -> bool) (l : list A) :
  (forall x, In x l -> p x = false) -> List.filter p l = [].
Proof.
  induction l as [| x l IH]; intros H; simpl; [reflexivity |].
  rewrite (H x (or_introl eq_refl)). apply IH.
  intros y Hy. apply H. right. exact Hy.
Qed.

Lemma db_Query_through env h q w :
  goes_through w = true ->
  fst (db_Query env h q w)
  = match select env q (conn h w) with
    | inl e => Err (sqlError e)
    | inr found => Ok found
    end.
Proof.
  unfold goes_through, db_Query, driver. simpl.
  destruct (faults w) as [| [e |] rest]; intros Hgo; try discriminate;
    destruct h; simpl; destruct (select env q _); reflexivity.
Qed.

Lemma db_QueryRow_through env h q w :
  goes_through w = true ->
  fst (db_QueryRow env h q w)
  = match select env q (conn h w) with
    | inl e => Err (sqlError e)
    | inr [] => Err (sqlError ErrNoRows)
    | inr (r :: _) => Ok r
    end.
Proof.
  unfold goes_through, db_QueryRow, driver. simpl.
  destruct (faults w) as [| [e |] rest]; intros Hgo; try discriminate;
    destruct h; simpl; destruct (select env q _) as [e | [| r found]];
    reflexivity.
Qed.

(** A row [QueryRow] hands over is one of the rows the query selects. *)
Lemma db_QueryRow_selected env h q w r :
  fst (db_QueryRow env h q w) = Ok r ->
  exists found, select env q (conn h w) = inr found /\ In r found.
Proof.
  unfold db_QueryRow, driver. simpl.
  destruct (faults w) as [| [e |] rest]; simpl; try discriminate;
    destruct h; simpl;
    destruct (select env q _) as [e' | [| r' found]]; simpl;
    try discriminate; intros [= ->]; eexists; (split; [reflexivity | left; reflexivity]).
Qed.

Lemma scanned_some (m : M user_row) w U :
  fst (scanned m w) = Ok (Some U) ->
  exists r, fst (m w) = Ok r /\ U = scanUser r.
Proof.
  unfold scanned. destruct (m w) as [[r | e] w']; simpl.
  - intros [= <-]. eauto.
  - destruct e as [msg | [] | code msg]; simpl; discriminate.
Qed.

(** C9: a lookup by id or by name and owner that no row answers returns
    the nil user and the nil error, and [GetUserByIDS] on the empty list
    returns the empty result and the nil error without a call to the
    driver. *)
Theorem not_found_is_not_an_error env (w : world) (id_ name_ ownerId : string) :
  (goes_through w = true ->
   (forall u, In u (user (master w)) ->
      flag u = 0 -> name u <> "polariadmin"%string -> id u <> id_) ->
   fst (GetUser env id_ w) = Ok None)
  /\ (goes_through w = true ->
      (forall u, In u (user (master w)) ->
         flag u = 0 -> name u <> "polariadmin"%string ->
         name u = name_ -> owner u <> ownerId) ->
      fst (GetUserByName env name_ ownerId w) = Ok None)
  /\ GetUserByIDS env [] w = (Ok [], w).
Proof.
  split; [| split; [| reflexivity]].
  - intros Hgo Hnone.
    unfold GetUser, scanned.
    pose proof (db_QueryRow_through env Master (SelectUserByID id_) w Hgo) as Hq.
    destruct (db_QueryRow env Master (SelectUserByID id_) w) as [r w'].
    simpl in Hq. subst r. simpl.
    rewrite filter_none; [reflexivity |].
    intros u Hu. specialize (Hnone u Hu).
    destruct (Z.eqb_spec (flag u) 0); [| reflexivity].
    destruct (String.eqb_spec (name u) "polariadmin"%string); [reflexivity |].
    destruct (String.eqb_spec (id u) id_); [| reflexivity].
    exfalso. apply Hnone; assumption.
  - intros Hgo Hnone.
    unfold GetUserByName, scanned.
    pose proof (db_QueryRow_through env Master (SelectUserByName name_ ownerId) w Hgo) as Hq.
    destruct (db_QueryRow env Master (SelectUserByName name_ ownerId) w) as [r w'].
    simpl in Hq. subst r. simpl.
    rewrite filter_none; [reflexivity |].
    intros u Hu. specialize (Hnone u Hu).
    destruct (Z.eqb_spec (flag u) 0); [| reflexivity].
    destruct (String.eqb_spec (name u) "polariadmin"%string); [reflexivity |].
    destruct (String.eqb_spec (name u) name_); [| reflexivity].
    destruct (String.eqb_spec (owner u) ownerId); [| reflexivity].
    exfalso. eapply Hnone; eauto.
Qed.

(** The store of the examples has no visible row of id ["u0"] (that row
    bears the reserved name) and no visible ["bob"] (his row is
    soft-deleted). *)
Lemma not_found_is_not_an_error_witness :
  fst (GetUser example_env "u0" (world_of users_database [])) = Ok None
  /\ fst (GetUserByName example_env "bob" "u1" (world_of users_database []))
     = Ok None
  /\ GetUserByIDS example_env [] (world_of users_database [])
     = (Ok [], world_of users_database []).
Proof.
  destruct (not_found_is_not_an_error example_env
              (world_of users_database []) "u0" "bob" "u1") as (H1 & H2 & H3).
  split; [| split].
  - apply H1; [reflexivity |].
    intros u [<- | [<- | [<- | []]]]; simpl; congruence.
  - apply H2; [reflexivity |].
    intros u [<- | [<- | [<- | []]]]; simpl; congruence.
  - exact H3.
Defined.

Lemma collectUsers_through env handler q w :
  goes_through w = true ->
  fst (collectUsers env handler q w)
  = match select env q (master w) with
    | inl e => Err (store_Error (sqlError e))
    | inr found => Ok (map fetchRown2User found)
    end.
Proof.
  intros Hgo. unfold collectUsers, map_err, bind, ret.
  pose proof (db_Query_through env Master q w Hgo) as Hq.
  destruct (db_Query env Master q w) as [r w']. simpl in Hq. subst r. simpl.
  destruct (select env q (master w)); reflexivity.
Qed.

Lemma fetched_rows (rows : list user_row) :
  Forall2 reads_row rows (map fetchRown2User rows).
Proof.
  induction rows as [| r t IH]; simpl; constructor; [| exact IH].
  unfold reads_row. simpl. repeat split; reflexivity.
Qed.

(** C8: on a first update [GetUsersForCache] returns the whole table
    with no condition on the modification time: one user for each row,
    carrying the columns of the row, a soft-deleted row among them with
    [Valid] false and a live row with [Valid] true.  Otherwise it
    returns exactly the rows whose modification time is at or after the
    watermark (as [Time2String] hands it to the engine), a row at the
    watermark included. *)
Theorem GetUsersForCache_rows env (w : world) (mtime_ : Z) :
  goes_through w = true ->
  (exists rows found,
     fst (GetUsersForCache env mtime_ true w) = Ok found
     /\ Permutation rows (user (master w))
     /\ Forall2 reads_row rows found
     /\ (forall u, In u (user (master w)) -> flag u = 1 ->
           exists U, In U found /\ reads_row u U /\ Valid U = false)
     /\ (forall u, In u (user (master w)) -> flag u = 0 ->
           exists U, In U found /\ reads_row u U /\ Valid U = true))
  /\ (exists rows found,
        fst (GetUsersForCache env mtime_ false w) = Ok found
        /\ Permutation rows
             (List.filter (fun u => Time2String env mtime_ <=? mtime u)
                          (user (master w)))
        /\ Forall2 reads_row rows found
        /\ (forall u, In u rows <->
                      In u (user (master w)) /\ Time2String env mtime_ <= mtime u)
        /\ (forall U, In U found -> Time2String env mtime_ <= ModifyTime U)
        /\ (forall u, In u (user (master w)) ->
                      mtime u = Time2String env mtime_ ->
                      exists U, In U found /\ reads_row u U)).
Proof.
  intros Hgo. split.
  - exists (user (master w)), (map fetchRown2User (user (master w))).
    split; [| split; [| split; [| split]]].
    + unfold GetUsersForCache. rewrite collectUsers_through by exact Hgo.
      reflexivity.
    + apply Permutation_refl.
    + apply fetched_rows.
    + intros u Hu Hflag. exists (fetchRown2User u).
      split; [apply in_map; exact Hu |].
      split; [unfold reads_row; simpl; repeat split; reflexivity |].
      simpl. rewrite Hflag. reflexivity.
    + intros u Hu Hflag. exists (fetchRown2User u).
      split; [apply in_map; exact Hu |].
      split; [unfold reads_row; simpl; repeat split; reflexivity |].
      simpl. rewrite Hflag. reflexivity.
  - exists (List.filter (fun u => Time2String env mtime_ <=? mtime u)
                        (user (master w))),
           (map fetchRown2User
              (List.filter (fun u => Time2String env mtime_ <=? mtime u)
                           (user (master w)))).
    split; [| split; [| split; [| split; [| split]]]].
    + unfold GetUsersForCache. rewrite collectUsers_through by exact Hgo.
      reflexivity.
    + apply Permutation_refl.
    + apply fetched_rows.
    + intros u. rewrite filter_In, Z.leb_le. reflexivity.
    + intros U HU. apply in_map_iff in HU as (u & <- & Hu).
      apply filter_In in Hu as [_ Hu]. apply Z.leb_le in Hu. exact Hu.
    + intros u Hu Hm. exists (fetchRown2User u). split.
      * apply in_map. apply filter_In. split; [exact Hu |].
        apply Z.leb_le. lia.
      * unfold reads_row. simpl. repeat split; reflexivity.
Qed.

Lemma GetUsersForCache_rows_witness :
  exists found U,
    fst (GetUsersForCache example_env 1600000500 true
           (world_of users_database [])) = Ok found
    /\ In U found /\ ID U = "u2"%string /\ Name U = "bob"%string
    /\ Valid U = false.
Proof.
  destruct (GetUsersForCache_rows example_env (world_of users_database [])
              1600000500 eq_refl)
    as [(rows & found & H1 & _ & _ & H4 & _) _].
  destruct (H4 bob_tombstone) as (U & HU & Hrow & Hvalid);
    [simpl; tauto | reflexivity |].
  destruct Hrow as (Hid & Hname & _).
  exists found, U. repeat split; assumption.
Defined.

(** C1, as the code has it: the two single-row lookups never return a
    user of the reserved name, while [GetUsersForCache] has no condition
    on the name and hands every row to the cache. *)
Theorem single_lookups_hide_admin env (w : world) (id_ name_ ownerId : string) :
  (forall U, fst (GetUser env id_ w) = Ok (Some U) ->
             Name U <> "polariadmin"%string)
  /\ (forall U, fst (GetUserByName env name_ ownerId w) = Ok (Some U) ->
                Name U <> "polariadmin"%string)
  /\ (goes_through w = true ->
      forall mtime_ u, In u (user (master w)) ->
        exists found,
          fst (GetUsersForCache env mtime_ true w) = Ok found
          /\ In (fetchRown2User u) found).
Proof.
  split; [| split].
  - intros U HU. unfold GetUser in HU.
    apply scanned_some in HU as (r & Hr & ->).
    apply db_QueryRow_selected in Hr as (found & Hsel & Hin).
    simpl in Hsel. injection Hsel as <-.
    apply filter_In in Hin as [_ Hp].
    apply andb_true_iff in Hp as [Hp _]. apply andb_true_iff in Hp as [_ Hp].
    simpl. destruct (String.eqb_spec (name r) "polariadmin"%string);
      [discriminate | assumption].
  - intros U HU. unfold GetUserByName in HU.
    apply scanned_some in HU as (r & Hr & ->).
    apply db_QueryRow_selected in Hr as (found & Hsel & Hin).
    simpl in Hsel. injection Hsel as <-.
    apply filter_In in Hin as [_ Hp].
    repeat (apply andb_true_iff in Hp as [Hp ?]).
    simpl. destruct (String.eqb_spec (name r) "polariadmin"%string);
      [discriminate | assumption].
  - intros Hgo mtime_ u Hu.
    exists (map fetchRown2User (user (master w))). split.
    + unfold GetUsersForCache. rewrite collectUsers_through by exact Hgo.
      reflexivity.
    + apply in_map. exact Hu.
Qed.

Lemma single_lookups_hide_admin_witness :
  fst (GetUser example_env "u1" (world_of users_database []))
  = Ok (Some (scanUser alice_row))
  /\ Name (scanUser alice_row) <> "polariadmin"%string
  /\ exists found,
       fst (GetUsersForCache example_env 0 true (world_of users_database []))
       = Ok found
       /\ In (fetchRown2User admin_row) found.
Proof.
  destruct (single_lookups_hide_admin example_env (world_of users_database [])
              "u1" "alice" "") as (H1 & _ & H3).
  split; [reflexivity |]. split.
  - apply H1. reflexivity.
  - apply (H3 eq_refl 0 admin_row). left. reflexivity.
Defined.

(** C1 as stated fails: the first cache read of a store that holds the
    administrator returns the user named ["polariadmin"]. *)
Lemma cache_read_returns_admin :
  exists found,
    fst (GetUsersForCache example_env 0 true (world_of users_database []))
    = Ok found
    /\ exists U, In U found /\ Name U = "polariadmin"%string.
Proof.
  eexists. split; [reflexivity |].
  exists (fetchRown2User admin_row). split; [left |]; reflexivity.
Qed.

(** The batch lookup excludes the name ["polarisadmin"], another
    spelling than the one of the single-row lookups: it returns the row
    named ["polariadmin"]. *)
Lemma GetUserByIDS_other_spelling :
  fst (GetUserByIDS example_env ["u0"%string] (world_of users_database []))
  = Ok [fetchRown2User admin_row].
Proof. reflexivity. Qed.

(** C10: when the filters hold the key ["group_id"] (the value of
    [GroupIDAttribute]), [GetUsers] writes the caller's map: afterwards
    the key ["group_id"] is gone, ["ug.group_id"] holds its former
    value, every other key is as before, and the map differs from the
    one passed in; this whatever the driver answers. *)
Theorem GetUsers_rewrites_filters env (filters : gmap string string)
    (offset limit : Z) (w : world) (group : string) :
  GroupIDAttribute env = "group_id"%string ->
  filters !! "group_id"%string = Some group ->
  fst (fst (GetUsers env filters offset limit w))
  = delete "group_id"%string (<["ug.group_id"%string := group]> filters)
  /\ fst (fst (GetUsers env filters offset limit w)) !! "group_id"%string = None
  /\ fst (fst (GetUsers env filters offset limit w)) !! "ug.group_id"%string
     = Some group
  /\ (forall k, k <> "group_id"%string -> k <> "ug.group_id"%string ->
        fst (fst (GetUsers env filters offset limit w)) !! k = filters !! k)
  /\ fst (fst (GetUsers env filters offset limit w)) <> filters.
Proof.
  intros Hattr Hgroup.
  assert (fst (fst (GetUsers env filters offset limit w))
          = delete "group_id"%string (<["ug.group_id"%string := group]> filters))
    as Heq.
  { unfold GetUsers. rewrite Hgroup. unfold listGroupUsers.
    rewrite Hattr, Hgroup.
    match goal with |- context [let (r, w') := ?body w in _] =>
      destruct (body w) as [r w'] end.
    reflexivity. }
  rewrite Heq. split; [reflexivity |]. split; [apply lookup_delete_eq |].
  split; [| split].
  - rewrite lookup_delete_ne by discriminate. apply lookup_insert_eq.
  - intros k Hk1 Hk2.
    rewrite lookup_delete_ne by congruence.
    apply lookup_insert_ne. congruence.
  - intros Hsame.
    assert (delete "group_id"%string (<["ug.group_id"%string := group]> filters)
              !! "group_id"%string = Some group) as H
      by (rewrite Hsame; exact Hgroup).
    rewrite lookup_delete_eq in H. discriminate.
Qed.

Lemma GetUsers_rewrites_filters_witness :
  fst (fst (GetUsers example_env
              (<["group_id"%string := "g1"%string]> (∅ : gmap string string))
              0 10 (world_of users_database []))) !! "group_id"%string = None
  /\ fst (fst (GetUsers example_env
                 (<["group_id"%string := "g1"%string]> (∅ : gmap string string))
                 0 10 (world_of users_database []))) !! "ug.group_id"%string
     = Some "g1"%string.
Proof.
  destruct (GetUsers_rewrites_filters example_env
              (<["group_id"%string := "g1"%string]> (∅ : gmap string string))
              0 10 (world_of users_database []) "g1"%string eq_refl)
    as (_ & H1 & H2 & _).
  - vm_compute. reflexivity.
  - split; [exact H1 | exact H2].
Defined.

End ReadFacts.

(** ** The user store: writes *)

Module WriteFacts.
Import Sqldb.
Local Open Scope list_scope.

(** *** Rules for triples *)

Lemma triple_ret {A} (P : world -> Prop) (a : A) (Q : res A -> world -> Prop) :
  (forall w, P w -> Q (Ok a) w) -> triple P (ret a) Q.
Proof. intros H w Hw. apply H. exact Hw. Qed.

Lemma triple_bind {A B} (P : world -> Prop) (m : M A) (k : A -> M B)
    (Pa : A -> world -> Prop) (Q : res B -> world -> Prop) :
  triple P m (fun r w' => match r with
                          | Ok a => Pa a w'
                          | Err e => Q (Err e) w'
                          end) ->
  (forall a, triple (Pa a) (k a) Q) ->
  triple P (bind m k) Q.
Proof.
  intros Hm Hk w Hw. specialize (Hm w Hw). unfold bind.
  destruct (m w) as [[a | e] w']; simpl in *.
  - apply Hk. exact Hm.
  - exact Hm.
Qed.

Lemma triple_map_err {A} (P : world -> Prop) (f : error -> error) (m : M A)
    (Q : res A -> world -> Prop) :
  triple P m (fun r w' => match r with
                          | Ok a => Q (Ok a) w'
                          | Err e => Q (Err (f e)) w'
                          end) ->
  triple P (map_err f m) Q.
Proof.
  intros Hm w Hw. specialize (Hm w Hw). unfold map_err.
  destruct (m w) as [[a | e] w']; exact Hm.
Qed.

Lemma triple_defer {A} (P : world -> Prop) (cleanup : world -> world)
    (m : M A) (Q : res A -> world -> Prop) :
  triple P m (fun r w' => Q r (cleanup w')) ->
  triple P (defer cleanup m) Q.
Proof.
  intros Hm w Hw. specialize (Hm w Hw). unfold defer.
  destruct (m w) as [r w']. exact Hm.
Qed.

Lemma triple_weaken {A} (P P' : world -> Prop) (m : M A)
    (Q Q' : res A -> world -> Prop) :
  triple P' m Q' ->
  (forall w, P w -> P' w) ->
  (forall r w, Q' r w -> Q r w) ->
  triple P m Q.
Proof. intros Hm HP HQ w Hw. apply HQ, Hm, HP, Hw. Qed.

(** A driver call: [I'] holds once the call is recorded, and [run]
    continues from there. *)
Lemma triple_call {A} (I I' : world -> Prop) (c : call) (run : M A)
    (Q : res A -> world -> Prop) :
  (forall w, I w -> forall f, I' (set_faults f (log c w)) /\ I' (log c w)) ->
  (forall e w, I' w -> Q (Err (sqlError e)) w) ->
  triple I' run Q ->
  triple I (driver c run) Q.
Proof.
  intros Hq Herr Hrun w Hw. unfold driver.
  destruct (Hq w Hw (tl (faults w))) as [H1 H2].
  simpl. destruct (faults w) as [| [e |] rest]; simpl in *.
  - apply Hrun. exact H2.
  - apply Herr. exact H1.
  - apply Hrun. exact H1.
Qed.

Lemma triple_driver {A} (I : world -> Prop) (c : call) (run : M A)
    (Q : res A -> world -> Prop) :
  quiet I ->
  (forall e w, I w -> Q (Err (sqlError e)) w) ->
  triple I run Q ->
  triple I (driver c run) Q.
Proof.
  intros Hq. apply triple_call. intros w Hw f. apply Hq. exact Hw.
Qed.

(** Sequencing under a condition that holds whatever the results. *)
Lemma triple_seq {A B} (I : world -> Prop) (m : M A) (k : A -> M B) :
  triple I m (fun _ w' => I w') ->
  (forall a, triple I (k a) (fun _ w' => I w')) ->
  triple I (bind m k) (fun _ w' => I w').
Proof.
  intros Hm Hk. apply (triple_bind _ _ _ (fun _ => I)); [| exact Hk].
  intros w Hw. specialize (Hm w Hw). destruct (fst (m w)); exact Hm.
Qed.

(** The retry loop keeps what every attempt keeps. *)
Lemma triple_retry (I : world -> Prop) (body : M unit) :
  triple I body (fun _ w' => I w') ->
  forall n last, triple I (retry n last body) (fun _ w' => I w').
Proof.
  intros Hbody n. induction n as [| n IH]; intros last w Hw; simpl.
  - exact Hw.
  - specialize (Hbody w Hw).
    destruct (body w) as [[a | e] w']; simpl in *; [exact Hbody |].
    destruct (transient e); [apply IH; exact Hbody | exact Hbody].
Qed.

(** *** [UpdateUser] and the identity columns *)

Lemma same_identity_refl r : same_identity r r.
Proof. unfold same_identity. tauto. Qed.

Lemma same_identity_trans r1 r2 r3 :
  same_identity r1 r2 -> same_identity r2 r3 -> same_identity r1 r3.
Proof. unfold same_identity. intuition congruence. Qed.

Lemma same_but_credentials_refl d : same_but_credentials d d.
Proof.
  unfold same_but_credentials. repeat split.
  induction (user d); constructor; [apply same_identity_refl | assumption].
Qed.

Lemma Forall2_same_identity_trans l1 : forall l2 l3,
  Forall2 same_identity l1 l2 -> Forall2 same_identity l2 l3 ->
  Forall2 same_identity l1 l3.
Proof.
  induction l1 as [| r1 l1 IH]; intros l2 l3 H12 H23.
  - inversion H12; subst. inversion H23; subst. constructor.
  - inversion H12 as [| ? r2 ? l2' Hr12 Hl12]; subst.
    inversion H23 as [| ? r3 ? l3' Hr23 Hl23]; subst.
    constructor; [eapply same_identity_trans; eassumption | eapply IH; eassumption].
Qed.

Lemma same_but_credentials_trans d1 d2 d3 :
  same_but_credentials d1 d2 -> same_but_credentials d2 d3 ->
  same_but_credentials d1 d3.
Proof.
  unfold same_but_credentials.
  intros (H1 & H2 & H3 & H4 & H5) (K1 & K2 & K3 & K4 & K5).
  split; [eapply Forall2_same_identity_trans; eassumption |].
  repeat split; congruence.
Qed.

Lemma update_credentials_same env p password_ token_ comment_ enable_ t :
  Forall2 same_identity t
    (fst (update_where env p
            (set_credentials password_ token_ comment_ enable_) t)).
Proof.
  unfold update_where. simpl.
  induction t as [| r t IH]; simpl; constructor; [| exact IH].
  destruct (p r); [| apply same_identity_refl].
  unfold same_identity. simpl. tauto.
Qed.

Lemma exec_UpdateUserRow_same env password_ token_ comment_ enable_ id_ sysdate d d' r :
  exec env (UpdateUserRow password_ token_ comment_ enable_ id_) sysdate d
  = inr (d', r) ->
  same_but_credentials d d'.
Proof.
  simpl. intros [= <- <-]. unfold same_but_credentials. simpl.
  split; [| auto].
  exact (update_credentials_same env
           (fun u => String.eqb (id u) id_ && (flag u =? 0))
           password_ token_ comment_ enable_ (user d)).
Qed.

Section UpdateFrame.

Variable env : Env.
Variable d0 s0 : database.

Let J0 (w : world) : Prop :=
  same_but_credentials d0 (master w) /\ slave w = s0.

Let J (w : world) : Prop :=
  J0 w /\ exists t, tx w = Some t /\ same_but_credentials d0 t.

Lemma quiet_J0 : quiet J0.
Proof. intros w Hw c f. split; exact Hw. Qed.

Lemma quiet_J : quiet J.
Proof. intros w Hw c f. split; exact Hw. Qed.

Lemma updateUser_frame u :
  triple J0 (updateUser env u) (fun _ w' => J0 w').
Proof.
  unfold updateUser.
  apply (triple_bind _ _ _ (fun _ => J)).
  - apply triple_driver; [apply quiet_J0 | auto |].
    intros w Hw. simpl. split; [exact Hw |].
    exists (master w). split; [reflexivity | apply Hw].
  - intros _. apply triple_defer.
    apply (triple_bind _ _ _ (fun _ => J)).
    + apply triple_driver; [apply quiet_J | intros e w Hw; apply Hw |].
      intros w Hw. destruct Hw as [Hw0 (t & Ht & HR)]. cbv beta. rewrite Ht.
      destruct (exec env _ (now w) t) as [e | [t' r]] eqn:He; cbn [fst snd].
      * exact Hw0.
      * split; [exact Hw0 |]. exists t'. split; [reflexivity |].
        eapply same_but_credentials_trans; [exact HR |].
        eapply exec_UpdateUserRow_same. exact He.
    + intros _.
      apply triple_driver; [apply quiet_J | intros e w Hw; apply Hw |].
      intros w Hw. destruct Hw as [Hw0 (t & Ht & HR)]. simpl. rewrite Ht.
      simpl. split; [exact HR | apply Hw0].
Qed.

Lemma UpdateUser_frame u :
  triple J0 (UpdateUser env u) (fun _ w' => J0 w').
Proof.
  unfold UpdateUser. destruct (missing u).
  - intros w Hw. exact Hw.
  - apply triple_map_err. unfold RetryTransaction.
    eapply triple_weaken; [apply triple_retry, updateUser_frame | auto |].
    intros [a | e] w H; exact H.
Qed.

End UpdateFrame.

(** C4: whatever the user passed and whatever the driver answers,
    [UpdateUser] leaves every row of the user table with its id, name,
    owner and source (and its flag, type and two times): only password,
    token, comment and token_enable can differ afterwards, and no other
    table changes. *)
Theorem UpdateUser_keeps_identity env (u : User) (w : world) :
  Forall2 same_identity (user (master w))
          (user (master (snd (UpdateUser env u w))))
  /\ same_but_credentials (master w) (master (snd (UpdateUser env u w)))
  /\ slave (snd (UpdateUser env u w)) = slave w.
Proof.
  pose proof (UpdateUser_frame env (master w) (slave w) u w) as H.
  simpl in H.
  destruct H as [H1 H2]; [split; [apply same_but_credentials_refl | reflexivity] |].
  split; [apply H1 |]. split; [exact H1 | exact H2].
Qed.

(** *** [AddUser] and the reclamation of a stale name *)

Section AddCalls.

Variable env : Env.
Variable base : list call.

Let E := extends_in_tx base.

Lemma extends_log c w :
  is_direct_exec c = false -> E w -> forall f,
  E (set_faults f (log c w)) /\ E (log c w).
Proof.
  intros Hc (cs & Hcs & HF) f.
  assert (E (log c w)) as H.
  { exists (cs ++ [c]). simpl. rewrite Hcs, app_assoc. split; [reflexivity |].
    apply Forall_app. split; [exact HF | constructor; [exact Hc | constructor]]. }
  split; exact H.
Qed.

Lemma Begin_calls : triple E Begin (fun _ w' => E w').
Proof.
  apply (triple_call E E).
  - intros w Hw f. apply extends_log; [reflexivity | exact Hw].
  - auto.
  - intros w Hw. exact Hw.
Qed.

Lemma tx_Exec_calls s : triple E (tx_Exec env s) (fun _ w' => E w').
Proof.
  apply (triple_call E E).
  - intros w Hw f. apply extends_log; [reflexivity | exact Hw].
  - auto.
  - intros w Hw. cbv beta. destruct (tx w) as [t |]; [| exact Hw].
    destruct (exec env s (now w) t) as [e | [t' r]]; exact Hw.
Qed.

Lemma tx_Commit_calls : triple E tx_Commit (fun _ w' => E w').
Proof.
  apply (triple_call E E).
  - intros w Hw f. apply extends_log; [reflexivity | exact Hw].
  - auto.
  - intros w Hw. cbv beta. destruct (tx w) as [t |]; exact Hw.
Qed.

Lemma tx_Rollback_calls w : E w -> E (tx_Rollback w).
Proof.
  intros Hw. unfold tx_Rollback.
  destruct (extends_log CRollback w eq_refl Hw []) as [_ H]. exact H.
Qed.

Lemma newUUID_calls : triple E (newUUID env) (fun _ w' => E w').
Proof. intros w Hw. exact Hw. Qed.

Lemma createDefaultStrategy_calls role id_ owner_ :
  triple E (createDefaultStrategy env role id_ owner_) (fun _ w' => E w').
Proof.
  unfold createDefaultStrategy.
  apply triple_seq; [apply newUUID_calls | intros strategyID].
  apply triple_seq; [apply newUUID_calls | intros revision].
  apply triple_seq; [apply tx_Exec_calls | intros _].
  apply triple_seq; [apply tx_Exec_calls | intros _].
  apply triple_ret. auto.
Qed.

Lemma addUser_calls u : triple E (addUser env u) (fun _ w' => E w').
Proof.
  unfold addUser.
  apply triple_seq; [apply Begin_calls | intros _].
  apply triple_defer.
  eapply triple_weaken with (P' := E) (Q' := fun _ w' => E w');
    [| auto | intros r w Hw; apply tx_Rollback_calls; exact Hw].
  apply triple_seq; [apply tx_Exec_calls | intros _].
  apply triple_seq; [| intros _; apply tx_Commit_calls].
  apply triple_map_err.
  eapply triple_weaken; [apply createDefaultStrategy_calls | auto |].
  intros [a | e] w Hw; exact Hw.
Qed.

End AddCalls.

Lemma no_reclaim_in_tx cs :
  Forall (fun c => is_direct_exec c = false) cs ->
  List.filter is_reclaim cs = [].
Proof.
  induction 1 as [| c cs Hc _ IH]; simpl; [reflexivity |].
  destruct c as [| | | | s | | |]; simpl in *; try exact IH. discriminate.
Qed.

(** C2, as the code has it: [AddUser] issues the statement that
    reclaims a stale name once, as its first call, before the retry
    wrapper starts; whatever the number of attempts, every later call
    belongs to a transaction, so no attempt runs the reclamation
    again. *)
Theorem AddUser_reclaims_once env (u : User) (w : world) :
  missing u = false ->
  exists rest,
    calls (snd (AddUser env u w))
    = calls w ++ CExec (DeleteStaleUser (Name u)) :: rest
    /\ Forall (fun c => is_direct_exec c = false) rest
    /\ length (List.filter is_reclaim
                 (CExec (DeleteStaleUser (Name u)) :: rest)) = 1%nat.
Proof.
  intros Hmiss.
  set (base := calls w ++ [CExec (DeleteStaleUser (Name u))]).
  assert (triple (fun w1 => calls w1 = calls w) (AddUser env u)
            (fun _ w' => extends_in_tx base w')) as T.
  { unfold AddUser. rewrite Hmiss.
    apply (triple_bind _ _ _ (fun _ => extends_in_tx base)).
    - unfold cleanInValidUser.
      apply (triple_bind _ _ _ (fun _ => extends_in_tx base)).
      + unfold db_Exec.
        apply (triple_call _ (extends_in_tx base)).
        * intros w1 Hw1 f.
          assert (extends_in_tx base (log (CExec (DeleteStaleUser (Name u))) w1)) as H.
          { exists []. simpl. rewrite Hw1, app_nil_r. split; [reflexivity | constructor]. }
          split; exact H.
        * auto.
        * intros w1 Hw1. cbv beta.
          destruct (exec env _ (now w1) (master w1)) as [e | [d r]]; exact Hw1.
      + intros _. apply triple_ret. auto.
    - intros _. apply triple_map_err. unfold RetryTransaction.
      eapply triple_weaken;
        [apply triple_retry, (addUser_calls env base u) | auto |].
      intros [a | e] w1 H; exact H. }
  destruct (T w eq_refl) as (rest & Hcalls & HF).
  exists rest. subst base. rewrite <- app_assoc in Hcalls. simpl in Hcalls.
  split; [exact Hcalls |]. split; [exact HF |].
  simpl. rewrite (no_reclaim_in_tx rest HF). reflexivity.
Qed.

Lemma AddUser_reclaims_once_witness :
  exists rest,
    calls (snd (AddUser example_env alice
                  (world_of empty_database [None; None; Some Deadlock])))
    = [] ++ CExec (DeleteStaleUser "alice") :: rest
    /\ Forall (fun c => is_direct_exec c = false) rest
    /\ length (List.filter is_reclaim
                 (CExec (DeleteStaleUser "alice") :: rest)) = 1%nat.
Proof.
  apply (AddUser_reclaims_once example_env alice
           (world_of empty_database [None; None; Some Deadlock])).
  reflexivity.
Defined.

(** C2 as stated fails: when the INSERT of the first attempt meets a
    deadlock, [AddUser] succeeds at the second attempt, having begun two
    transactions and run the reclamation once. *)
Lemma AddUser_retry_skips_reclaim :
  fst (AddUser example_env alice
         (world_of empty_database [None; None; Some Deadlock])) = Ok tt
  /\ length (List.filter is_begin
               (calls (snd (AddUser example_env alice
                              (world_of empty_database
                                 [None; None; Some Deadlock]))))) = 2%nat
  /\ length (List.filter is_reclaim
               (calls (snd (AddUser example_env alice
                              (world_of empty_database
                                 [None; None; Some Deadlock]))))) = 1%nat.
Proof. vm_compute. auto. Qed.

(** *** [UpdateUser] and the count of affected rows *)

Lemma updateUser_from_driver env u :
  triple (fun _ => True) (updateUser env u) (fun r _ => from_driver r).
Proof.
  unfold updateUser.
  apply (triple_bind _ _ _ (fun _ _ => True)).
  - apply triple_driver; [intros w _ c f; auto | simpl; eauto | intros w _; exact I].
  - intros _. apply triple_defer.
    apply (triple_bind _ _ _ (fun _ _ => True)).
    + apply triple_driver; [intros w _ c f; auto | simpl; eauto |].
      intros w _. cbv beta. destruct (tx w) as [t |]; [| simpl; eauto].
      destruct (exec env _ (now w) t) as [e | [t' r]]; simpl; eauto.
    + intros _.
      apply triple_driver; [intros w _ c f; auto | simpl; eauto |].
      intros w _. cbv beta. destruct (tx w) as [t |]; simpl; eauto.
Qed.

Lemma retry_from_driver (body : M unit) :
  triple (fun _ => True) body (fun r _ => from_driver r) ->
  forall n last w,
    from_driver last -> from_driver (fst (retry n last body w)).
Proof.
  intros Hbody n. induction n as [| n IH]; intros last w Hlast; simpl.
  - exact Hlast.
  - specialize (Hbody w I).
    destruct (body w) as [[a | e] w']; simpl in *; [exact I |].
    destruct (transient e); [apply IH; exact Hbody | exact Hbody].
Qed.

Lemma store_Error_from_driver s msg :
  store_Error (sqlError s) <> StatusError AffectedRowsNotMatch msg.
Proof. destruct s; simpl; discriminate. Qed.

Lemma update_where_no_match {A} `{EqDecision A} env (p : A -> bool) f (t : list A) :
  (forall r, In r t -> p r = false) ->
  fst (update_where env p f t) = t.
Proof.
  unfold update_where. simpl. intros Hp.
  induction t as [| r t IH]; simpl; [reflexivity |].
  rewrite (Hp r (or_introl eq_refl)). f_equal.
  apply IH. intros r' Hr'. apply Hp. right. exact Hr'.
Qed.

Lemma with_user_same d : with_user (user d) d = d.
Proof. destruct d. reflexivity. Qed.

Lemma set_master_same w : set_master (master w) w = w.
Proof. destruct w. reflexivity. Qed.

(** When the driver answers every call, one attempt of [updateUser]
    commits what the UPDATE makes of the store. *)
Lemma updateUser_calm env u w :
  faults w = [] ->
  exists d r,
    exec env (UpdateUserRow (Password u) (Token u) (Comment u)
                (if TokenEnable u then 1 else 0) (ID u))
         (now w) (master w) = inr (d, r)
    /\ fst (updateUser env u w) = Ok tt
    /\ master (snd (updateUser env u w)) = d.
Proof.
  intros Hf.
  destruct (exec env (UpdateUserRow (Password u) (Token u) (Comment u)
                        (if TokenEnable u then 1 else 0) (ID u))
                 (now w) (master w)) as [e | [d r]] eqn:He.
  { simpl in He. discriminate. }
  exists d, r. split; [reflexivity |].
  unfold updateUser, bind, Begin, defer, tx_Exec, tx_Commit, driver, tx_Rollback.
  cbn [faults log set_tx set_faults set_master tx master now fst snd].
  repeat (first [rewrite Hf | rewrite He];
          cbn [faults log set_tx set_faults set_master tx master now fst snd]).
  split; reflexivity.
Qed.

(** C3, as the code has it: [UpdateUser] throws the result of its UPDATE
    away.  It never answers [AffectedRowsNotMatch]; when the driver
    answers every call it returns the nil error whatever the count, and
    when no row that is not soft-deleted bears the id the store is left
    as it was. *)
Theorem UpdateUser_ignores_count env (u : User) (w : world) :
  (forall msg,
     fst (UpdateUser env u w) <> Err (StatusError AffectedRowsNotMatch msg))
  /\ (missing u = false -> faults w = [] ->
      fst (UpdateUser env u w) = Ok tt
      /\ ((forall row, In row (user (master w)) ->
             id row = ID u -> flag row <> 0) ->
          master (snd (UpdateUser env u w)) = master w)).
Proof.
  split.
  - intros msg. unfold UpdateUser. destruct (missing u); [discriminate |].
    unfold map_err, RetryTransaction.
    pose proof (retry_from_driver _ (updateUser_from_driver env u)
                  (RetryTimes env) (Ok tt) w I) as H.
    destruct (retry (RetryTimes env) (Ok tt) (updateUser env u) w)
      as [[a | e] w']; simpl in *; [discriminate |].
    destruct H as [s ->]. intros [= H]. revert H.
    destruct s; simpl; discriminate.
  - intros Hmiss Hf. unfold UpdateUser. rewrite Hmiss.
    unfold map_err, RetryTransaction.
    destruct (RetryTimes env) as [| n]; [simpl; split; [reflexivity | auto] |].
    destruct (updateUser_calm env u w Hf) as (d & r & He & Hok & Hd).
    simpl. destruct (updateUser env u w) as [res w']. simpl in Hok, Hd.
    subst res. simpl. split; [reflexivity |].
    intros Hnone. simpl in He. injection He as Hd' _.
    rewrite Hd, <- Hd'.
    pose proof (update_where_no_match env
                  (fun x => String.eqb (id x) (ID u) && (flag x =? 0))
                  (set_credentials (Password u) (Token u) (Comment u)
                     (if TokenEnable u then 1 else 0))
                  (user (master w))) as Hsame.
    simpl in Hsame. rewrite Hsame; [apply with_user_same |].
    intros row Hrow. specialize (Hnone row Hrow).
    destruct (String.eqb_spec (id row) (ID u)); [| reflexivity].
    destruct (Z.eqb_spec (flag row) 0); [| reflexivity].
    exfalso. apply Hnone; assumption.
Qed.

(** An update of the soft-deleted ["u2"]: no row is touched, the call
    returns the nil error and the store is as before. *)
Lemma UpdateUser_ignores_count_witness :
  fst (UpdateUser example_env
         {| ID := "u2"; Name := "bob"; Password := "secret7Q"; Owner := "u1";
            Source := "internal"; Token := "tok-7"; TokenEnable := true;
            Type_ := 2; Comment := ""; Valid := true;
            CreateTime := zeroTime; ModifyTime := zeroTime |}
         (world_of users_database [])) = Ok tt
  /\ master (snd (UpdateUser example_env
         {| ID := "u2"; Name := "bob"; Password := "secret7Q"; Owner := "u1";
            Source := "internal"; Token := "tok-7"; TokenEnable := true;
            Type_ := 2; Comment := ""; Valid := true;
            CreateTime := zeroTime; ModifyTime := zeroTime |}
         (world_of users_database []))) = users_database.
Proof.
  destruct (UpdateUser_ignores_count example_env
         {| ID := "u2"; Name := "bob"; Password := "secret7Q"; Owner := "u1";
            Source := "internal"; Token := "tok-7"; TokenEnable := true;
            Type_ := 2; Comment := ""; Valid := true;
            CreateTime := zeroTime; ModifyTime := zeroTime |}
         (world_of users_database [])) as [_ H].
  destruct (H eq_refl eq_refl) as [H1 H2].
  split; [exact H1 |]. apply H2.
  intros row [<- | [<- | [<- | []]]]; simpl; congruence.
Defined.

(** C3 as stated fails, whatever count is taken as the expected one:
    an update of the live row ["u1"] that repeats its values changes no
    row, one that sets a new password changes one row, and both return
    the nil error. *)
Lemma UpdateUser_reports_no_mismatch :
  ~ exists expected, reports_mismatch example_env expected.
Proof.
  intros [expected H].
  assert (exists row, In row (user (master (world_of users_database [])))
                      /\ id row = "u1"%string /\ flag row = 0) as Hrow.
  { exists alice_row. split; [right; left; reflexivity | split; reflexivity]. }
  destruct (Z.eq_dec expected 0) as [-> | Hne].
  - specialize (H alice_new_password (world_of users_database [])).
    destruct (exec example_env
                (UpdateUserRow (Password alice_new_password)
                   (Token alice_new_password) (Comment alice_new_password)
                   (if TokenEnable alice_new_password then 1 else 0)
                   (ID alice_new_password))
                (now (world_of users_database []))
                (master (world_of users_database []))) as [e | [d r]] eqn:He;
      vm_compute in He; [discriminate |].
    injection He as <- <-.
    specialize (H _ _ eq_refl eq_refl Hrow eq_refl).
    vm_compute in H. specialize (H ltac:(discriminate)). discriminate.
  - specialize (H alice (world_of users_database [])).
    destruct (exec example_env
                (UpdateUserRow (Password alice) (Token alice) (Comment alice)
                   (if TokenEnable alice then 1 else 0) (ID alice))
                (now (world_of users_database []))
                (master (world_of users_database []))) as [e | [d r]] eqn:He;
      vm_compute in He; [discriminate |].
    injection He as <- <-.
    specialize (H _ _ eq_refl eq_refl Hrow eq_refl).
    assert (fst (UpdateUser example_env alice (world_of users_database []))
            = Ok tt) as Hok by (vm_compute; reflexivity).
    rewrite Hok in H. cbn [rows] in H.
    specialize (H ltac:(intros E; apply Hne; symmetry; exact E)).
    discriminate.
Qed.

(** *** [DeleteUser] and the default strategy *)

Lemma filter_all {A} (p : A -> bool) (l : list A) :
  (forall x, In x l -> p x = true) -> List.filter p l = l.
Proof.
  induction l as [| x l IH]; intros H; simpl; [reflexivity |].
  rewrite (H x (or_introl eq_refl)). f_equal. apply IH.
  intros y Hy. apply H. right. exact Hy.
Qed.

Section DeleteFrame.

Variable env : Env.
Variable id_ : string.
Variable d0 : database.

(** No strategy bears the name [cleanLinkStrategy] looks for. *)
Hypothesis no_group_strategy :
  forall s, In s (auth_strategy d0) ->
            st_name s <> BuildDefaultStrategyName env id_ PrincipalUserGroup.

Let gname := BuildDefaultStrategyName env id_ PrincipalUserGroup.

Let J0 (w : world) : Prop := same_strategies d0 (master w).

Let J (w : world) : Prop :=
  J0 w /\ exists t, tx w = Some t /\ same_strategies d0 t.

Lemma no_match t s :
  same_strategies d0 t -> In s (auth_strategy t) ->
  String.eqb (st_name s) gname = false.
Proof.
  intros [Hs _] Hin. rewrite Hs in Hin.
  apply String.eqb_neq. apply no_group_strategy. exact Hin.
Qed.

Lemma strategy_id_named_none t :
  same_strategies d0 t -> strategy_id_named gname t = inr None.
Proof.
  intros Ht. unfold strategy_id_named.
  rewrite ReadFacts.filter_none; [reflexivity |].
  intros s Hs. apply (no_match t s Ht Hs).
Qed.

Lemma exec_delete_keeps s sysdate t t' r :
  In s [FlagUser id_; FlagRelations id_; FlagStrategy gname;
        DeleteStrategyResources gname; DeleteStrategyPrincipals gname;
        DeletePrincipalLinks id_ PrincipalUserGroup] ->
  same_strategies d0 t ->
  exec env s sysdate t = inr (t', r) ->
  same_strategies d0 t'.
Proof.
  intros Hs Ht He.
  destruct Hs as [<- | [<- | [<- | [<- | [<- | [<- | []]]]]]]; simpl in He.
  - injection He as <- _. exact Ht.
  - injection He as <- _. exact Ht.
  - injection He as <- _. destruct Ht as [Ht1 Ht2].
    split; [| exact Ht2]. simpl. rewrite <- Ht1.
    pose proof (update_where_no_match env
                  (fun x => String.eqb (st_name x) gname) (set_st_flag 1)
                  (auth_strategy t)) as Hsame.
    simpl in Hsame. apply Hsame.
    intros x Hx. apply (no_match t x (conj Ht1 Ht2) Hx).
  - rewrite (strategy_id_named_none t Ht) in He. injection He as <- _.
    destruct Ht as [Ht1 Ht2]. split; [exact Ht1 |]. simpl. rewrite <- Ht2.
    apply filter_all. reflexivity.
  - rewrite (strategy_id_named_none t Ht) in He. injection He as <- _.
    exact Ht.
  - destruct (principa_id env) as [column |]; [| discriminate].
    injection He as <- _. exact Ht.
Qed.

Lemma quiet_D0 : quiet J0.
Proof. intros w Hw c f. split; exact Hw. Qed.

Lemma quiet_D : quiet J.
Proof. intros w Hw c f. split; exact Hw. Qed.

Lemma tx_Exec_delete_keeps s :
  In s [FlagUser id_; FlagRelations id_; FlagStrategy gname;
        DeleteStrategyResources gname; DeleteStrategyPrincipals gname;
        DeletePrincipalLinks id_ PrincipalUserGroup] ->
  triple J (tx_Exec env s) (fun _ w' => J w').
Proof.
  intros Hs.
  apply triple_driver; [apply quiet_D | auto |].
  intros w Hw. destruct Hw as [Hw0 (t & Ht & HR)]. cbv beta. rewrite Ht.
  destruct (exec env s (now w) t) as [e | [t' r]] eqn:He; cbn [fst snd].
  - split; [exact Hw0 | eauto].
  - split; [exact Hw0 |]. exists t'. split; [reflexivity |].
    eapply exec_delete_keeps; eassumption.
Qed.

Lemma deleteUser_frame :
  triple J0 (deleteUser env id_) (fun _ w' => J0 w').
Proof.
  unfold deleteUser.
  apply (triple_bind _ _ _ (fun _ => J)).
  - apply triple_driver; [apply quiet_D0 | auto |].
    intros w Hw. simpl. split; [exact Hw |].
    exists (master w). split; [reflexivity | apply Hw].
  - intros _. apply triple_defer.
    eapply triple_weaken with (P' := J) (Q' := fun _ w' => J0 w');
      [| auto | intros r w Hw; exact Hw].
    apply (triple_bind _ _ _ (fun _ => J)).
    { eapply triple_weaken; [apply (tx_Exec_delete_keeps (FlagUser id_)) | auto |];
        [simpl; tauto | intros [a | e] w Hw; [exact Hw | apply Hw]]. }
    intros _. apply (triple_bind _ _ _ (fun _ => J)).
    { eapply triple_weaken; [apply (tx_Exec_delete_keeps (FlagRelations id_)) | auto |];
        [simpl; tauto | intros [a | e] w Hw; [exact Hw | apply Hw]]. }
    intros _. apply (triple_bind _ _ _ (fun _ => J)).
    { unfold cleanLinkStrategy. fold gname.
      eapply triple_weaken with (P' := J) (Q' := fun _ w' => J w');
        [| auto | intros [a | e] w Hw; [exact Hw | apply Hw]].
      apply triple_seq; [apply tx_Exec_delete_keeps; simpl; tauto | intros _].
      apply triple_seq; [apply tx_Exec_delete_keeps; simpl; tauto | intros _].
      apply triple_seq; [apply tx_Exec_delete_keeps; simpl; tauto | intros _].
      apply triple_seq; [apply tx_Exec_delete_keeps; simpl; tauto | intros _].
      apply triple_ret. auto. }
    intros _.
    apply triple_driver; [apply quiet_D | intros e w Hw; apply Hw |].
    intros w Hw. destruct Hw as [Hw0 (t & Ht & HR)]. cbv beta. rewrite Ht.
    exact HR.
Qed.

Lemma DeleteUser_frame :
  triple J0 (DeleteUser env id_) (fun _ w' => J0 w').
Proof.
  unfold DeleteUser. destruct (String.eqb id_ "").
  - intros w Hw. exact Hw.
  - apply triple_map_err. unfold RetryTransaction.
    eapply triple_weaken; [apply triple_retry, deleteUser_frame | auto |].
    intros [a | e] w H; exact H.
Qed.

End DeleteFrame.

(** [cleanLinkStrategy] looks for the strategy under the name built for
    the group kind: as long as no strategy bears that name, [DeleteUser]
    leaves every strategy row and every resource binding as it was,
    whatever the driver answers. *)
Lemma DeleteUser_keeps_strategies env (id_ : string) (w : world) :
  (forall s, In s (auth_strategy (master w)) ->
             st_name s <> BuildDefaultStrategyName env id_ PrincipalUserGroup) ->
  same_strategies (master w) (master (snd (DeleteUser env id_ w))).
Proof.
  intros Hno.
  apply (DeleteUser_frame env id_ (master w) Hno w).
  split; reflexivity.
Qed.

(** C5, where the code departs from the claim.  The store holds the user
    ["u1"], her default strategy under the name built for the user kind
    and one resource bound to it.  On a table without a column
    [principa_id] the last statement of [cleanLinkStrategy] fails:
    [DeleteUser] returns an error and the store is as before, the user
    row not soft-deleted.  On a table that has the column the call
    returns the nil error and soft-deletes the user row, and the strategy
    is still not soft-deleted and still has its resource binding. *)
Theorem DeleteUser_misses_default_strategy :
  (fst (DeleteUser example_env "u1" (world_of (provisioned example_env) []))
   = Err (StatusError Unknown "sql")
   /\ master (snd (DeleteUser example_env "u1"
                     (world_of (provisioned example_env) [])))
      = provisioned example_env)
  /\ (fst (DeleteUser lenient_env "u1" (world_of (provisioned lenient_env) []))
      = Ok tt
      /\ map flag (user (master (snd (DeleteUser lenient_env "u1"
                                        (world_of (provisioned lenient_env) [])))))
         = [1]
      /\ map st_flag
           (auth_strategy (master (snd (DeleteUser lenient_env "u1"
                                          (world_of (provisioned lenient_env) [])))))
         = [0]
      /\ resources_of (default_strategy_name "u1" PrincipalUser)
           (master (snd (DeleteUser lenient_env "u1"
                           (world_of (provisioned lenient_env) []))))
         = [{| res_strategy_id := "s1"; res_payload := "namespace:default" |}]).
Proof. vm_compute. repeat split. Qed.

End WriteFacts.

(** ** The validator: passwords and owners *)

Module ValidatorMore.
Import Utf8 Regexp Validator ValidatorFacts.
Local Open Scope list_scope.
Set Warnings "-clear-no-such-hyp".

Lemma first_ascii b : b < 128 -> first b = Ascii.
Proof. intros Hb. unfold first. destruct (Z.ltb_spec b 128); [reflexivity | lia]. Qed.

Lemma runes_cons_ascii c t :
  byte c < 128 -> runes (String c t) = byte c :: runes t.
Proof. intros Hc. simpl. rewrite (first_ascii _ Hc). reflexivity. Qed.

(** On a string of ASCII bytes the runes are the bytes. *)
Lemma runes_ascii s : ascii_only s -> runes s = bytes s.
Proof.
  unfold ascii_only, bytes. induction s as [| c t IH]; intros H; [reflexivity |].
  simpl in H. inversion H as [| ? ? Hc Ht]; subst.
  rewrite (runes_cons_ascii c t Hc). simpl. f_equal. apply IH. exact Ht.
Qed.

Lemma bytes_length s : length (bytes s) = String.length s.
Proof.
  unfold bytes. rewrite length_map.
  induction s as [| c t IH]; simpl; [reflexivity | f_equal; exact IH].
Qed.

Section Classes.

Variables IsDigit IsLower IsUpper : rune -> bool.

Abbreviation classify := (classify IsDigit IsLower IsUpper).
Abbreviation fill_flags := (fill_flags IsDigit IsLower IsUpper).
Abbreviation checkPassword := (checkPassword IsDigit IsLower IsUpper).

Lemma classify_nonempty v : classify v <> ""%string.
Proof. unfold Validator.classify. repeat case_match; discriminate. Qed.

(** What the loop leaves in the slice: the slots before [k] as they
    were, the classes of the runes, the remaining slots as they were. *)
Lemma fill_flags_spec rs : forall k (flag : list string),
  (k + length rs <= length flag)%nat ->
  fill_flags k rs flag
  = take k flag ++ map classify rs ++ drop (k + length rs) flag.
Proof.
  induction rs as [| v rest IH]; intros k flag Hlen; simpl.
  - rewrite Nat.add_0_r. symmetry. apply take_drop.
  - simpl in Hlen. rewrite IH by (rewrite length_insert; lia).
    rewrite (take_S_r (<[k:=classify v]> flag) k (classify v))
      by (apply list_lookup_insert_eq; lia).
    rewrite take_insert_ge by lia.
    rewrite drop_insert_lt by lia.
    rewrite <- app_assoc. simpl.
    replace (S (k + length rest))%nat with (k + S (length rest))%nat by lia.
    reflexivity.
Qed.

Lemma flags_of value :
  fill_flags 0 (runes value) (replicate (String.length value) ""%string)
  = map classify (runes value)
    ++ replicate (String.length value - length (runes value)) ""%string.
Proof.
  rewrite fill_flags_spec
    by (rewrite length_replicate; pose proof (runes_length value); lia).
  simpl. rewrite drop_replicate. reflexivity.
Qed.

Lemma dom_marks (flag : list string) : forall cpx : gmap string bool,
  dom (fold_left mark flag cpx) = list_to_set flag ∪ dom cpx.
Proof.
  induction flag as [| v flag IH]; intros cpx; simpl.
  - set_solver.
  - rewrite IH. unfold mark. rewrite dom_insert_L. set_solver.
Qed.

Lemma size_two (X : gset string) :
  (2 <= size X)%nat <-> exists x y, x ∈ X /\ y ∈ X /\ x <> y.
Proof.
  split.
  - intros Hsize.
    destruct (set_choose_L X) as [x Hx].
    { intros ->. rewrite size_empty in Hsize. lia. }
    destruct (set_choose_L (X ∖ {[x]})) as [y Hy].
    { intros Hempty.
      assert (size (X ∖ {[x]}) = 0%nat) as H0 by (rewrite Hempty; apply size_empty).
      rewrite size_difference in H0 by set_solver.
      rewrite size_singleton in H0. lia. }
    exists x, y. set_solver.
  - intros (x & y & Hx & Hy & Hne).
    assert (size ({[x]} ∪ {[y]} : gset string) = 2%nat) as H2.
    { rewrite size_union by set_solver. rewrite !size_singleton. reflexivity. }
    rewrite <- H2. apply subseteq_size. set_solver.
Qed.

(** The test on [len(cpx)], read on the slice of flags. *)
Lemma enough_classes (flag : list string) :
  (size (fold_left mark flag (∅ : gmap string bool)) <? 2)%nat = false
  <-> exists x y, In x flag /\ In y flag /\ x <> y.
Proof.
  rewrite Nat.ltb_ge, <- size_dom, dom_marks, dom_empty_L, size_two.
  split; intros (x & y & Hx & Hy & Hne); exists x, y.
  - rewrite <- !list_elem_of_In. set_solver.
  - rewrite <- !list_elem_of_In in Hx, Hy. set_solver.
Qed.

Lemma checkPassword_passes value :
  checkPassword (Some value) = None <->
  6 <= len value <= 17
  /\ exists x y,
       In x (map classify (runes value)
             ++ replicate (String.length value - length (runes value)) ""%string)
       /\ In y (map classify (runes value)
                ++ replicate (String.length value - length (runes value)) ""%string)
       /\ x <> y.
Proof.
  unfold Validator.checkPassword.
  destruct (String.eqb_spec value ""%string) as [-> | Hne].
  { split; [discriminate | intros [H _]; unfold len in H; simpl in H; lia]. }
  destruct ((len value <? 6) || (17 <? len value)) eqn:Hlen.
  { split; [discriminate |]. intros [H _].
    apply orb_true_iff in Hlen as [Hl | Hl]; apply Z.ltb_lt in Hl; lia. }
  apply orb_false_iff in Hlen as [H1 H2]. apply Z.ltb_ge in H1, H2.
  cbv zeta. rewrite flags_of.
  destruct (size _ <? 2)%nat eqn:Hsize.
  - split; [discriminate |]. intros [_ H].
    apply enough_classes in H. congruence.
  - apply enough_classes in Hsize. split; [intros _; split; [lia | exact Hsize] | reflexivity].
Qed.

(** On a password of ASCII bytes [checkPassword] does what its messages
    say: it passes exactly when the password has 6 to 17 bytes and two
    of its characters fall into different classes. *)
Theorem checkPassword_on_ascii (value : string) :
  ascii_only value ->
  (checkPassword (Some value) = None <->
   6 <= len value <= 17
   /\ exists c1 c2, In c1 (bytes value) /\ In c2 (bytes value)
                    /\ classify c1 <> classify c2).
Proof.
  intros Hascii. rewrite checkPassword_passes.
  rewrite (runes_ascii value Hascii), bytes_length, Nat.sub_diag. simpl.
  rewrite app_nil_r.
  split; intros [Hlen H]; (split; [exact Hlen |]).
  - destruct H as (x & y & Hx & Hy & Hne).
    apply in_map_iff in Hx as (c1 & <- & Hc1).
    apply in_map_iff in Hy as (c2 & <- & Hc2).
    exists c1, c2. auto.
  - destruct H as (c1 & c2 & Hc1 & Hc2 & Hne).
    exists (classify c1), (classify c2).
    split; [apply in_map; exact Hc1 |]. split; [apply in_map; exact Hc2 | exact Hne].
Qed.

(** A password of 6 to 17 bytes that has fewer runes than bytes (one
    with a multi-byte character, or with bytes that are not UTF-8)
    passes whatever its characters are: the slots of the slice that the
    loop does not reach count as a class. *)
Theorem checkPassword_multibyte_passes (value : string) :
  6 <= len value <= 17 ->
  (length (runes value) < String.length value)%nat ->
  checkPassword (Some value) = None.
Proof.
  intros Hlen Hfew. apply checkPassword_passes. split; [exact Hlen |].
  destruct (runes value) as [| v rest] eqn:Hr.
  { exfalso. apply (runes_nonempty value); [| exact Hr].
    intros ->. unfold len in Hlen. simpl in Hlen. lia. }
  exists (classify v), ""%string. split; [left; reflexivity |]. split.
  - apply in_or_app. right.
    destruct (String.length value - length (v :: rest))%nat as [| n] eqn:Hn;
      [lia | left; reflexivity].
  - apply classify_nonempty.
Qed.

End Classes.

(** *** Names are checked byte by byte *)

Lemma lor_ge128_l a b : 0 <= b -> 128 <= a -> 128 <= Z.lor a b.
Proof.
  intros Hb Ha.
  assert (0 <= Z.lor a b) as Hn by (apply Z.lor_nonneg; lia).
  assert (7 <= Z.log2 (Z.lor a b)) as Hl.
  { rewrite Z.log2_lor by lia.
    assert (7 <= Z.log2 a) by (apply Z.log2_le_pow2; simpl; lia). lia. }
  destruct (Z.eq_dec (Z.lor a b) 0) as [E | E].
  - rewrite E in Hl. simpl in Hl. lia.
  - apply (Z.log2_le_pow2 (Z.lor a b) 7) in Hl; simpl in *; lia.
Qed.

Lemma lor_ge128_r a b : 0 <= a -> 128 <= b -> 128 <= Z.lor a b.
Proof. intros. rewrite Z.lor_comm. apply lor_ge128_l; assumption. Qed.

Lemma byte_range c : 0 <= byte c < 256.
Proof.
  unfold byte. pose proof (N_ascii_bounded c). lia.
Qed.

Lemma low6_range b : 0 <= low6 b < 64.
Proof.
  unfold low6. change 63 with (Z.ones 6). rewrite Z.land_ones by lia.
  apply Z.mod_pos_bound. reflexivity.
Qed.

Lemma low6_mod b : low6 b = b mod 64.
Proof.
  unfold low6. change 63 with (Z.ones 6). rewrite Z.land_ones by lia. reflexivity.
Qed.

Lemma first_lead s0 size lo hi :
  first s0 = Lead size lo hi ->
  128 <= lo /\ hi <= 191
  /\ ((size = 2%nat /\ 194 <= s0 < 224)
      \/ (size = 3%nat /\ 224 <= s0 < 240 /\ (s0 = 224 -> lo = 160))
      \/ (size = 4%nat /\ 240 <= s0 <= 244 /\ (s0 = 240 -> lo = 144))).
Proof.
  unfold first.
  repeat match goal with
         | |- context [?a <? ?b] => destruct (Z.ltb_spec a b)
         | |- context [?a =? ?b] => destruct (Z.eqb_spec a b)
         end; intros [= <- <- <-] || discriminate; lia.
Qed.

(** A leading byte outside ASCII never gives an ASCII rune. *)
Lemma runes_head_high c0 t0 :
  128 <= byte c0 ->
  exists r rest, runes (String c0 t0) = r :: rest /\ 128 <= r.
Proof.
  intros Hhigh. simpl.
  destruct (first (byte c0)) as [| | size lo hi] eqn:Hfirst.
  - unfold first in Hfirst.
    destruct (Z.ltb_spec (byte c0) 128); [lia |].
    repeat case_match; discriminate.
  - eexists _, _. split; [reflexivity | unfold RuneError; lia].
  - apply first_lead in Hfirst as (Hlo & Hhi & Hsize).
    destruct t0 as [| c1 t1];
      [eexists _, _; split; [reflexivity | unfold RuneError; lia] |].
    pose proof (byte_range c1) as Hc1.
    destruct (Z.ltb_spec (byte c1) lo); simpl;
      [eexists _, _; split; [reflexivity | unfold RuneError; lia] |].
    destruct (Z.ltb_spec hi (byte c1)); simpl;
      [eexists _, _; split; [reflexivity | unfold RuneError; lia] |].
    pose proof (low6_range (byte c1)) as Hl1.
    destruct (Nat.leb_spec size 2).
    { eexists _, _. split; [reflexivity |].
      apply lor_ge128_l; [lia |].
      change 31 with (Z.ones 5). rewrite Z.land_ones, Z.shiftl_mul_pow2 by lia.
      change (2 ^ 5) with 32. change (2 ^ 6) with 64.
      assert (194 <= byte c0 < 224) by lia.
      Z.div_mod_to_equations. lia. }
    destruct t1 as [| c2 t2];
      [eexists _, _; split; [reflexivity | unfold RuneError; lia] |].
    destruct (cont (byte c2)); simpl;
      [| eexists _, _; split; [reflexivity | unfold RuneError; lia]].
    pose proof (low6_range (byte c2)) as Hl2.
    assert (0 <= Z.shiftl (low6 (byte c1)) 6) as Hs1
      by (apply Z.shiftl_nonneg; lia).
    destruct (Nat.leb_spec size 3).
    { eexists _, _. split; [reflexivity |].
      apply lor_ge128_l; [lia |].
      assert (224 <= byte c0 < 240 /\ (byte c0 = 224 -> lo = 160))
        as [Hr H224] by lia.
      destruct (Z.eq_dec (byte c0) 224) as [E | E].
      - apply lor_ge128_r.
        + apply Z.shiftl_nonneg, Z.land_nonneg. lia.
        + rewrite Z.shiftl_mul_pow2, low6_mod by lia. change (2 ^ 6) with 64.
          specialize (H224 E). Z.div_mod_to_equations. lia.
      - apply lor_ge128_l; [lia |].
        change 15 with (Z.ones 4). rewrite Z.land_ones, Z.shiftl_mul_pow2 by lia.
        change (2 ^ 4) with 16. change (2 ^ 12) with 4096.
        Z.div_mod_to_equations. lia. }
    destruct t2 as [| c3 t3];
      [eexists _, _; split; [reflexivity | unfold RuneError; lia] |].
    destruct (cont (byte c3)); simpl;
      [| eexists _, _; split; [reflexivity | unfold RuneError; lia]].
    pose proof (low6_range (byte c3)) as Hl3.
    eexists _, _. split; [reflexivity |].
    apply lor_ge128_l; [lia |].
    apply lor_ge128_l; [apply Z.shiftl_nonneg; lia |].
    assert (240 <= byte c0 <= 244 /\ (byte c0 = 240 -> lo = 144))
      as [Hr H240] by lia.
    destruct (Z.eq_dec (byte c0) 240) as [E | E].
    + apply lor_ge128_r.
      * apply Z.shiftl_nonneg, Z.land_nonneg. lia.
      * rewrite Z.shiftl_mul_pow2, low6_mod by lia. change (2 ^ 12) with 4096.
        specialize (H240 E). Z.div_mod_to_equations. lia.
    + apply lor_ge128_l; [apply Z.shiftl_nonneg; lia |].
      change 7 with (Z.ones 3). rewrite Z.land_ones, Z.shiftl_mul_pow2 by lia.
      change (2 ^ 3) with 8. change (2 ^ 18) with 262144.
      Z.div_mod_to_equations. lia.
Qed.

Lemma spec_name_char_ascii c : spec_name_char c -> c < 128.
Proof. unfold spec_name_char. lia. Qed.

Lemma runes_allowed_bytes s :
  Forall spec_name_char (runes s) <-> Forall spec_name_char (bytes s).
Proof.
  split.
  - induction s as [| c0 t0 IH]; intros H; [constructor |].
    destruct (Z.lt_ge_cases (byte c0) 128) as [Hlow | Hhigh].
    + rewrite (runes_cons_ascii c0 t0 Hlow) in H.
      inversion H; subst. constructor; [assumption | apply IH; assumption].
    + destruct (runes_head_high c0 t0 Hhigh) as (r & rest & Hr & Hge).
      rewrite Hr in H. inversion H as [| ? ? Hc _]; subst.
      apply spec_name_char_ascii in Hc. lia.
  - intros H. rewrite runes_ascii; [exact H |].
    eapply Forall_impl; [exact H |]. apply spec_name_char_ascii.
Qed.

(** [checkName] decides on the bytes: a name passes exactly when it is
    not empty, is not the reserved name, and each of its bytes is one of
    [[0-9A-Za-z\-.:_]]; a name that passes is plain ASCII. *)
Theorem checkName_bytewise (value : string) :
  (checkName (Some value) = None <->
   value <> ""%string /\ value <> "polariadmin"%string
   /\ Forall spec_name_char (bytes value))
  /\ (checkName (Some value) = None ->
      ascii_only value /\ runes value = bytes value).
Proof.
  assert (checkName (Some value) = None <->
          value <> ""%string /\ value <> "polariadmin"%string
          /\ Forall spec_name_char (bytes value)) as Hiff.
  { rewrite checkName_passes, runes_allowed_bytes. reflexivity. }
  split; [exact Hiff |].
  intros Hpass. apply Hiff in Hpass as (_ & _ & HF).
  assert (ascii_only value) as Hascii.
  { eapply Forall_impl; [exact HF |]. apply spec_name_char_ascii. }
  split; [exact Hascii | apply runes_ascii; exact Hascii].
Qed.

Lemma checkName_bytewise_witness :
  ascii_only "svc-user_01" /\ runes "svc-user_01" = bytes "svc-user_01".
Proof.
  apply (checkName_bytewise "svc-user_01"%string). reflexivity.
Defined.

(** *** Owners are measured in code points *)

Lemma length_append (a b : string) :
  String.length (a ++ b) = (String.length a + String.length b)%nat.
Proof. induction a as [| c a IH]; simpl; [reflexivity | f_equal; exact IH]. Qed.

Lemma copies_e_acute n :
  runes (copies n e_acute) = repeat 233 n
  /\ String.length (copies n e_acute) = (2 * n)%nat.
Proof.
  induction n as [| n [IH1 IH2]]; [split; reflexivity |].
  split.
  - change (runes (copies (S n) e_acute)) with (233 :: runes (copies n e_acute)).
    rewrite IH1. reflexivity.
  - simpl copies. rewrite length_append, IH2. simpl. lia.
Qed.

(** [checkOwner] bounds the number of code points, not of bytes: a
    non-empty owner of at most [MaxOwnersLength] bytes always passes, and
    so does an owner of [n] two-byte characters for every
    [n <= MaxOwnersLength], although it has [2 n] bytes. *)
Theorem checkOwner_counts_code_points (MaxOwnersLength : Z) :
  (forall value, value <> ""%string -> len value <= MaxOwnersLength ->
                 checkOwner MaxOwnersLength (Some value) = None)
  /\ (forall n, (0 < n)%nat -> Z.of_nat n <= MaxOwnersLength ->
                checkOwner MaxOwnersLength (Some (copies n e_acute)) = None
                /\ len (copies n e_acute) = 2 * Z.of_nat n)
  /\ (forall value, checkOwner MaxOwnersLength (Some value) = None ->
                    value <> ""%string
                    /\ Z.of_nat (length (runes value)) <= MaxOwnersLength).
Proof.
  split; [| split].
  - intros value Hne Hlen. unfold checkOwner.
    destruct (String.eqb_spec value ""%string); [congruence |].
    unfold RuneCountInString, len in *.
    pose proof (runes_length value).
    destruct (Z.ltb_spec MaxOwnersLength (Z.of_nat (length (runes value))));
      [lia | reflexivity].
  - intros n Hn Hmax. destruct (copies_e_acute n) as [Hr Hl].
    split; [| unfold len; rewrite Hl; lia].
    unfold checkOwner.
    destruct (String.eqb_spec (copies n e_acute) ""%string) as [E | _].
    { rewrite E in Hl. simpl in Hl. lia. }
    unfold RuneCountInString. rewrite Hr, repeat_length.
    destruct (Z.ltb_spec MaxOwnersLength (Z.of_nat n)); [lia | reflexivity].
  - intros value. unfold checkOwner.
    destruct (String.eqb_spec value ""%string); [discriminate |].
    unfold RuneCountInString.
    destruct (Z.ltb_spec MaxOwnersLength (Z.of_nat (length (runes value))));
      [discriminate |].
    intros _. split; [assumption | lia].
Qed.

Lemma checkOwner_counts_code_points_witness :
  checkOwner 4 (Some "root"%string) = None
  /\ checkOwner 4 (Some (copies 4 e_acute)) = None
  /\ len (copies 4 e_acute) = 8.
Proof.
  destruct (checkOwner_counts_code_points 4) as (H1 & H2 & _).
  split.
  - apply H1; [discriminate | vm_compute; discriminate].
  - destruct (H2 4%nat) as [Ha Hb]; [lia | lia |]. split; [exact Ha | exact Hb].
Defined.

Lemma checkPassword_on_ascii_witness :
  checkPassword (fun r => (48 <=? r) && (r <=? 57))
                (fun r => (97 <=? r) && (r <=? 122))
                (fun r => (65 <=? r) && (r <=? 90)) (Some "Abc123"%string)
  = None <->
  6 <= len "Abc123" <= 17
  /\ exists c1 c2, In c1 (bytes "Abc123") /\ In c2 (bytes "Abc123")
                   /\ classify (fun r => (48 <=? r) && (r <=? 57))
                               (fun r => (97 <=? r) && (r <=? 122))
                               (fun r => (65 <=? r) && (r <=? 90)) c1
                      <> classify (fun r => (48 <=? r) && (r <=? 57))
                                  (fun r => (97 <=? r) && (r <=? 122))
                                  (fun r => (65 <=? r) && (r <=? 90)) c2.
Proof.
  apply (checkPassword_on_ascii _ _ _ "Abc123"%string).
  unfold ascii_only. vm_compute. repeat constructor.
Defined.

Lemma checkPassword_multibyte_passes_witness :
  checkPassword (fun _ => false) (fun _ => true) (fun _ => false)
                (Some six_e_acute) = None.
Proof.
  apply (checkPassword_multibyte_passes _ _ _ six_e_acute).
  - vm_compute. split; discriminate.
  - vm_compute. lia.
Defined.

End ValidatorMore.

(** ** The user store: more on the reads *)

Module ReadMore.
Import Sqldb ReadFacts WriteFacts.
Local Open Scope list_scope.

(** A user that a single-row lookup returns comes from a row of the
    table that is not soft-deleted and answers the question asked (the
    id, or the name and the owner).  The lookups select eight columns:
    the user they build has [Valid] false, an empty comment and the zero
    times, although its row is live. *)
Theorem lookups_return_live_rows env (w : world) (id_ name_ ownerId : string)
    (U : User) :
  (fst (GetUser env id_ w) = Ok (Some U) ->
   (exists row, In row (user (master w)) /\ flag row = 0 /\ id row = id_
                /\ U = scanUser row)
   /\ ID U = id_ /\ Valid U = false /\ Comment U = ""%string
   /\ CreateTime U = zeroTime /\ ModifyTime U = zeroTime)
  /\ (fst (GetUserByName env name_ ownerId w) = Ok (Some U) ->
      (exists row, In row (user (master w)) /\ flag row = 0
                   /\ name row = name_ /\ owner row = ownerId
                   /\ U = scanUser row)
      /\ Name U = name_ /\ Owner U = ownerId /\ Valid U = false).
Proof.
  split.
  - intros HU. unfold GetUser in HU.
    apply scanned_some in HU as (r & Hr & ->).
    apply db_QueryRow_selected in Hr as (found & Hsel & Hin).
    simpl in Hsel. injection Hsel as <-.
    apply filter_In in Hin as [Hin Hp].
    apply andb_true_iff in Hp as [Hp Hid].
    apply andb_true_iff in Hp as [Hflag _].
    apply Z.eqb_eq in Hflag. apply String.eqb_eq in Hid.
    split; [exists r; auto |]. simpl. auto.
  - intros HU. unfold GetUserByName in HU.
    apply scanned_some in HU as (r & Hr & ->).
    apply db_QueryRow_selected in Hr as (found & Hsel & Hin).
    simpl in Hsel. injection Hsel as <-.
    apply filter_In in Hin as [Hin Hp].
    apply andb_true_iff in Hp as [Hp Howner].
    apply andb_true_iff in Hp as [Hp Hname].
    apply andb_true_iff in Hp as [Hflag _].
    apply Z.eqb_eq in Hflag. apply String.eqb_eq in Hname, Howner.
    split; [exists r; auto |]. simpl. auto.
Qed.

Lemma lookups_return_live_rows_witness :
  ID (scanUser alice_row) = "u1"%string
  /\ Valid (scanUser alice_row) = false
  /\ Name (scanUser alice_row) = "alice"%string.
Proof.
  destruct (lookups_return_live_rows example_env (world_of users_database [])
              "u1" "alice" "" (scanUser alice_row)) as [H1 H2].
  destruct (H1 eq_refl) as (_ & Hid & Hvalid & _).
  destruct (H2 eq_refl) as (_ & Hname & _).
  auto.
Defined.

Lemma NoDup_map_filter {A B} (f : A -> B) (p : A -> bool) (l : list A) :
  List.NoDup (map f l) -> List.NoDup (map f (List.filter p l)).
Proof.
  induction l as [| a t IH]; simpl; intros Hnd; [constructor |].
  apply NoDup_cons_iff in Hnd as [Hnot Hnd].
  destruct (p a); simpl; [| apply IH; exact Hnd].
  apply NoDup_cons_iff. split; [| apply IH; exact Hnd].
  intros Hin. apply Hnot. apply in_map_iff in Hin as (x & Hx & Hin).
  apply in_map_iff. exists x. split; [exact Hx |].
  apply filter_In in Hin as [Hin _]. exact Hin.
Qed.

Lemma Forall2_reads_ids rows found :
  Forall2 reads_row rows found -> map ID found = map id rows.
Proof.
  induction 1 as [| r U rows found Hrow _ IH]; simpl; [reflexivity |].
  destruct Hrow as (-> & _). f_equal. exact IH.
Qed.

(** When its query goes through, [GetUserByIDS] on a list that is not
    empty returns one user for each row that is not soft-deleted, is not
    named ["polarisadmin"] and bears one of the ids, with the columns of
    that row, and no other user; the order is left open.  Each user
    returned is [Valid], has one of the ids asked for and is not named
    ["polarisadmin"].  A row comes back once however often its id is in
    the list: where the ids of the table are distinct, so are the ids of
    the users returned. *)
Theorem GetUserByIDS_rows env (w : world) (ids : list string) :
  goes_through w = true ->
  ids <> [] ->
  exists rows found,
    fst (GetUserByIDS env ids w) = Ok found
    /\ Permutation rows
         (List.filter
            (fun u => (flag u =? 0)
                      && negb (String.eqb (name u) "polarisadmin")
                      && existsb (String.eqb (id u)) ids)
            (user (master w)))
    /\ Forall2 reads_row rows found
    /\ (forall u, In u rows <->
                  In u (user (master w)) /\ flag u = 0
                  /\ name u <> "polarisadmin"%string /\ In (id u) ids)
    /\ (forall U, In U found ->
                  Valid U = true /\ In (ID U) ids
                  /\ Name U <> "polarisadmin"%string)
    /\ (List.NoDup (map id (user (master w))) -> List.NoDup (map ID found))
    /\ (length found <= length (user (master w)))%nat.
Proof.
  intros Hgo Hids.
  set (p := fun u => (flag u =? 0) && negb (String.eqb (name u) "polarisadmin")
                     && existsb (String.eqb (id u)) ids).
  assert (forall u, p u = true <->
                    flag u = 0 /\ name u <> "polarisadmin"%string /\ In (id u) ids)
    as Hp.
  { intros u. unfold p.
    rewrite !andb_true_iff, negb_true_iff, Z.eqb_eq, String.eqb_neq, existsb_exists.
    split.
    - intros [[H1 H2] (x & Hx & Hxe)]. apply String.eqb_eq in Hxe. subst x. auto.
    - intros (H1 & H2 & H3). split; [auto |]. exists (id u).
      split; [exact H3 | apply String.eqb_refl]. }
  exists (List.filter p (user (master w))),
         (map fetchRown2User (List.filter p (user (master w)))).
  split; [| split; [| split; [| split; [| split; [| split]]]]].
  - destruct ids as [| i ids']; [congruence |].
    unfold GetUserByIDS, map_err, bind, ret.
    pose proof (db_Query_through env Master (SelectUsersByIDs (i :: ids')) w Hgo) as Hq.
    destruct (db_Query env Master (SelectUsersByIDs (i :: ids')) w) as [r w'].
    simpl in Hq. subst r. reflexivity.
  - apply Permutation_refl.
  - apply fetched_rows.
  - intros u. rewrite filter_In, Hp. reflexivity.
  - intros U HU. apply in_map_iff in HU as (u & <- & Hu).
    apply filter_In in Hu as [_ Hu]. apply Hp in Hu as (Hflag & Hname & Hid).
    simpl. rewrite Hflag. auto.
  - intros Hnd.
    rewrite (Forall2_reads_ids _ _ (fetched_rows (List.filter p (user (master w))))).
    apply NoDup_map_filter. exact Hnd.
  - rewrite length_map. apply filter_length_le.
Qed.

Lemma GetUserByIDS_rows_witness :
  exists found,
    fst (GetUserByIDS example_env ["u1"; "u2"; "u1"]%string
           (world_of users_database []))
    = Ok found
    /\ List.NoDup (map ID found)
    /\ (length found <= 3)%nat.
Proof.
  destruct (GetUserByIDS_rows example_env (world_of users_database [])
              ["u1"; "u2"; "u1"]%string eq_refl ltac:(discriminate))
    as (rows & found & H1 & _ & _ & _ & _ & H6 & H7).
  exists found. split; [exact H1 |]. split; [| exact H7].
  apply H6. vm_compute. repeat constructor; simpl; intuition discriminate.
Defined.

(** *** Reads leave the store alone *)

Section ReadFrame.

Variable env : Env.
Variable w0 : world.

Let S (w : world) : Prop := same_store w0 w.

Lemma quiet_S : quiet S.
Proof. intros w Hw c f. split; exact Hw. Qed.

Lemma db_Query_keeps h q : triple S (db_Query env h q) (fun _ w' => S w').
Proof.
  apply triple_driver; [apply quiet_S | auto |].
  intros w Hw. cbv beta. destruct (select env q (conn h w)); exact Hw.
Qed.

Lemma db_QueryRow_keeps h q : triple S (db_QueryRow env h q) (fun _ w' => S w').
Proof.
  apply triple_driver; [apply quiet_S | auto |].
  intros w Hw. cbv beta.
  destruct (select env q (conn h w)) as [e | [| r found]]; exact Hw.
Qed.

Lemma queryEntryCount_keeps h text args_ :
  triple S (queryEntryCount env h text args_) (fun _ w' => S w').
Proof.
  apply triple_driver; [apply quiet_S | auto |].
  intros w Hw. cbv beta. destruct (count_text env (conn h w) text args_); exact Hw.
Qed.

Lemma collectUsers_keeps handler q :
  triple S (collectUsers env handler q) (fun _ w' => S w').
Proof.
  unfold collectUsers. apply triple_map_err.
  eapply triple_weaken with (P' := S) (Q' := fun _ w' => S w');
    [| auto | intros [a | e] w Hw; exact Hw].
  apply triple_seq; [apply db_Query_keeps | intros found; apply triple_ret; auto].
Qed.

Lemma scanned_keeps (m : M user_row) :
  triple S m (fun _ w' => S w') -> triple S (scanned m) (fun _ w' => S w').
Proof.
  intros Hm w Hw. specialize (Hm w Hw). unfold scanned.
  destruct (m w) as [[r | e] w']; simpl in *; [exact Hm |].
  destruct e as [msg | [] | code msg]; exact Hm.
Qed.

Lemma listUsers_keeps filters offset limit :
  triple S (listUsers env filters offset limit) (fun _ w' => S w').
Proof.
  unfold listUsers. cbv zeta.
  apply triple_seq.
  - apply triple_map_err.
    eapply triple_weaken; [apply queryEntryCount_keeps | auto |].
    intros [a | e] w Hw; exact Hw.
  - intros count. apply triple_seq; [apply collectUsers_keeps |].
    intros users. apply triple_ret. auto.
Qed.

Lemma listGroupUsers_keeps filters offset limit w :
  S w -> S (snd (listGroupUsers env filters offset limit w)).
Proof.
  intros Hw. unfold listGroupUsers.
  destruct (filters !! GroupIDAttribute env) as [group |]; [| exact Hw].
  cbv zeta.
  match goal with
  | |- S (snd (let (r, w') := ?body w in _)) =>
    assert (triple S body (fun _ w' => S w')) as Hbody
  end.
  { apply triple_seq; [apply queryEntryCount_keeps | intros count].
    apply triple_seq; [apply collectUsers_keeps | intros users].
    apply triple_ret. auto. }
  specialize (Hbody w Hw).
  match goal with
  | |- S (snd (let (r, w') := ?body w in _)) => destruct (body w) as [r w']
  end.
  exact Hbody.
Qed.

End ReadFrame.

Lemma same_store_refl w : same_store w w.
Proof. unfold same_store. tauto. Qed.

(** No read writes: whatever the driver answers, each of the read
    operations leaves the two databases, the open transaction, the
    identifiers drawn and the clock as it found them. *)
Theorem reads_keep_store env (w : world) :
  (forall id_, same_store w (snd (GetUser env id_ w)))
  /\ (forall name_ ownerId, same_store w (snd (GetUserByName env name_ ownerId w)))
  /\ (forall ids, same_store w (snd (GetUserByIDS env ids w)))
  /\ (forall mtime_ firstUpdate,
        same_store w (snd (GetUsersForCache env mtime_ firstUpdate w)))
  /\ (forall filters offset limit,
        same_store w (snd (GetUsers env filters offset limit w))).
Proof.
  pose proof (same_store_refl w) as Hw.
  split; [| split; [| split; [| split]]].
  - intros id_. apply (scanned_keeps w _ (db_QueryRow_keeps env w Master _) w Hw).
  - intros name_ ownerId.
    apply (scanned_keeps w _ (db_QueryRow_keeps env w Master _) w Hw).
  - intros ids. unfold GetUserByIDS. destruct ids as [| i ids]; [exact Hw |].
    assert (triple (same_store w)
              (map_err store_Error
                 (bind (db_Query env Master (SelectUsersByIDs (i :: ids)))
                       (fun found => ret (map fetchRown2User found))))
              (fun _ w' => same_store w w')) as T.
    { apply triple_map_err.
      eapply triple_weaken with (P' := same_store w)
                                (Q' := fun _ w' => same_store w w');
        [| auto | intros [a | e] w1 Hw1; exact Hw1].
      apply triple_seq; [apply db_Query_keeps | intros found; apply triple_ret; auto]. }
    apply (T w Hw).
  - intros mtime_ firstUpdate. apply (collectUsers_keeps env w _ _ w Hw).
  - intros filters offset limit. unfold GetUsers.
    destruct (filters !! "group_id"%string).
    + apply listGroupUsers_keeps. exact Hw.
    + pose proof (listUsers_keeps env w filters offset limit w Hw) as H.
      destruct (listUsers env filters offset limit w) as [r w']. exact H.
Qed.

(** *** Errors of the reads *)

Lemma db_Query_from_driver env h q w : from_driver (fst (db_Query env h q w)).
Proof.
  unfold db_Query, driver. simpl.
  destruct (faults w) as [| [s |] rest]; simpl; eauto;
    destruct (select env q _); simpl; eauto.
Qed.

Lemma db_QueryRow_from_driver env h q w :
  from_driver (fst (db_QueryRow env h q w)).
Proof.
  unfold db_QueryRow, driver. simpl.
  destruct (faults w) as [| [s |] rest]; simpl; eauto;
    destruct (select env q _) as [e | [| r found]]; simpl; eauto.
Qed.

Lemma queryEntryCount_from_driver env h text args_ w :
  from_driver (fst (queryEntryCount env h text args_ w)).
Proof.
  unfold queryEntryCount, driver. simpl.
  destruct (faults w) as [| [s |] rest]; simpl; eauto;
    destruct (count_text env _ text args_); simpl; eauto.
Qed.

Lemma scanned_wrapped (m : M user_row) w :
  from_driver (fst (m w)) -> wrapped (fst (scanned m w)).
Proof.
  unfold scanned. destruct (m w) as [[r | e] w']; simpl; [auto |].
  intros [s ->].
  destruct s as [| | | | | | c | msg]; simpl;
    [exact I | exists Deadlock | exists BadConnection | exists DuplicateEntry
     | exists ErrTxDone | exists SubqueryRows | exists (UnknownColumn c)
     | exists (DriverFault msg)]; reflexivity.
Qed.

Lemma collectUsers_wrapped env handler q w :
  wrapped (fst (collectUsers env handler q w)).
Proof.
  unfold collectUsers, map_err, bind, ret.
  pose proof (db_Query_from_driver env Master q w) as H.
  destruct (db_Query env Master q w) as [[found | e] w']; simpl in *; [exact I |].
  destruct H as [s ->]. eauto.
Qed.

(** An error that a lookup, the batch lookup, the cache read or the
    plain listing returns has gone through [store.Error]: none of them
    hands an error of the driver to its caller as it is. *)
Theorem read_errors_are_wrapped env (w : world) :
  (forall id_, wrapped (fst (GetUser env id_ w)))
  /\ (forall name_ ownerId, wrapped (fst (GetUserByName env name_ ownerId w)))
  /\ (forall ids, wrapped (fst (GetUserByIDS env ids w)))
  /\ (forall mtime_ firstUpdate,
        wrapped (fst (GetUsersForCache env mtime_ firstUpdate w)))
  /\ (forall filters offset limit,
        wrapped (fst (listUsers env filters offset limit w))).
Proof.
  split; [| split; [| split; [| split]]].
  - intros id_. apply scanned_wrapped, db_QueryRow_from_driver.
  - intros name_ ownerId. apply scanned_wrapped, db_QueryRow_from_driver.
  - intros ids. unfold GetUserByIDS. destruct ids as [| i ids]; [exact I |].
    unfold map_err, bind, ret.
    pose proof (db_Query_from_driver env Master (SelectUsersByIDs (i :: ids)) w) as H.
    destruct (db_Query env Master (SelectUsersByIDs (i :: ids)) w)
      as [[found | e] w']; simpl in *; [exact I |].
    destruct H as [s ->]. eauto.
  - intros mtime_ firstUpdate. apply collectUsers_wrapped.
  - intros filters offset limit. unfold listUsers. cbv zeta.
    unfold bind at 1. unfold map_err at 1.
    match goal with
    | |- context [queryEntryCount env Master ?t ?a w] =>
      pose proof (queryEntryCount_from_driver env Master t a w) as H;
      destruct (queryEntryCount env Master t a w) as [[count | e] w']
    end; simpl in *.
    + unfold bind, ret.
      match goal with
      | |- context [collectUsers env Master ?q w'] =>
        pose proof (collectUsers_wrapped env Master q w') as H';
        destruct (collectUsers env Master q w') as [[users | e] w'']
      end; simpl in *; [exact I | exact H'].
    + destruct H as [s ->]. eauto.
Qed.

(** *** The calls of the listings *)

Lemma driver_calls {A} c (run : M A) w :
  (forall w1, calls (snd (run w1)) = calls w1) ->
  calls (snd (driver c run w)) = calls w ++ [c].
Proof.
  intros Hrun. unfold driver. simpl.
  destruct (faults w) as [| [s |] rest]; simpl; [| reflexivity |];
    rewrite Hrun; reflexivity.
Qed.

Lemma queryEntryCount_calls env h text args_ w :
  calls (snd (queryEntryCount env h text args_ w))
  = calls w ++ [CCount h text args_].
Proof.
  apply driver_calls. intros w1.
  destruct (count_text env (conn h w1) text args_); reflexivity.
Qed.


Lemma collectUsers_calls env handler q w :
  calls (snd (collectUsers env handler q w)) = calls w ++ [CQuery Master q].
Proof.
  unfold collectUsers, map_err, bind, ret.
  pose proof (driver_calls (CQuery Master q)
                (fun w1 => match select env q (conn Master w1) with
                           | inl e => (Err (sqlError e), w1)
                           | inr found => (Ok found, w1)
                           end) w) as H.
  fold (db_Query env Master q) in H.
  destruct (db_Query env Master q w) as [[found | e] w']; simpl in *;
    apply H; intros w1; destruct (select env q (master w1)); reflexivity.
Qed.

(** A count followed, when it succeeds, by the page query. *)
Lemma page_after_count env (count : M Z) (cc : call) q w :
  calls (snd (count w)) = calls w ++ [cc] ->
  exists rest,
    calls (snd (bind count
                  (fun n => bind (collectUsers env Master q)
                                 (fun users => ret (n, users))) w))
    = calls w ++ cc :: rest
    /\ (rest = [] \/ rest = [CQuery Master q])
    /\ (forall e, fst (count w) = Err e ->
          rest = []
          /\ fst (bind count
                    (fun n => bind (collectUsers env Master q)
                                   (fun users => ret (n, users))) w) = Err e).
Proof.
  intros Hcount. unfold bind at 1 3.
  destruct (count w) as [[n | e] w1]; simpl in *.
  - exists [CQuery Master q]. split; [| split; [auto | discriminate]].
    unfold bind, ret.
    pose proof (collectUsers_calls env Master q w1) as Hc.
    destruct (collectUsers env Master q w1) as [[users | e] w2]; simpl in *;
      rewrite Hc, Hcount, <- app_assoc; reflexivity.
  - exists []. split; [exact Hcount |]. split; [auto |].
    intros e' [= <-]. auto.
Qed.

Lemma map_err_calls {A} f (m : M A) w :
  calls (snd (map_err f m w)) = calls (snd (m w)).
Proof. unfold map_err. destruct (m w) as [[a | e] w']; reflexivity. Qed.



(** *** Placeholders and arguments of the assembled texts *)

Lemma count_marks_app (a b : string) :
  count_marks (a ++ b)%string = (count_marks a + count_marks b)%nat.
Proof.
  induction a as [| c a IH]; simpl; [reflexivity |]. rewrite IH. lia.
Qed.

Lemma extend_balanced piece new_args a :
  count_marks piece = length new_args ->
  balanced_texts a -> balanced_texts (extend piece new_args a).
Proof.
  unfold balanced_texts, extend. simpl. intros Hp [H1 H2].
  rewrite !count_marks_app, length_app. lia.
Qed.

Lemma listUsers_step_balanced env a k v :
  count_marks k = 0%nat ->
  balanced_texts a -> balanced_texts (listUsers_step env a (k, v)).
Proof.
  intros Hk Ha. unfold listUsers_step.
  assert (balanced_texts (extend " AND " [] a)) as Ha'
    by (apply extend_balanced; [reflexivity | exact Ha]).
  repeat case_match; apply extend_balanced; try exact Ha';
    rewrite ?count_marks_app, ?Hk; reflexivity.
Qed.

Lemma mapped_key_marks k newK :
  userLinkGroupAttributeMapping !! k = Some newK -> count_marks newK = 0%nat.
Proof.
  unfold userLinkGroupAttributeMapping. intros H.
  apply elem_of_list_to_map_2 in H. apply list_elem_of_In in H.
  simpl in H. destruct H as [[= <- <-] | [[= <- <-] | [[= <- <-] | []]]];
    reflexivity.
Qed.

Lemma listGroupUsers_step_balanced a k v :
  count_marks k = 0%nat ->
  balanced_texts a -> balanced_texts (listGroupUsers_step a (k, v)).
Proof.
  intros Hk Ha. unfold listGroupUsers_step.
  destruct (userLinkGroupAttributeMapping !! k) as [newK |] eqn:Hmap.
  - pose proof (mapped_key_marks k newK Hmap) as HnewK.
    destruct (IsWildName v); apply extend_balanced; try exact Ha;
      rewrite ?count_marks_app, ?HnewK; reflexivity.
  - destruct (IsWildName v); apply extend_balanced; try exact Ha;
      rewrite ?count_marks_app, ?Hk; reflexivity.
Qed.

Lemma fold_balanced (step : assembled -> string * string -> assembled)
    (l : list (string * string)) :
  (forall a k v, count_marks k = 0%nat ->
                 balanced_texts a -> balanced_texts (step a (k, v))) ->
  Forall (fun kv => count_marks (fst kv) = 0%nat) l ->
  forall a, balanced_texts a -> balanced_texts (fold_left step l a).
Proof.
  intros Hstep Hl. induction Hl as [| [k v] l Hk _ IH]; intros a Ha; simpl.
  - exact Ha.
  - apply IH. apply Hstep; [exact Hk | exact Ha].
Qed.

Lemma keys_without_marks (filters : gmap string string) :
  (forall k v, filters !! k = Some v -> count_marks k = 0%nat) ->
  Forall (fun kv => count_marks (fst kv) = 0%nat) (map_to_list filters).
Proof.
  intros H. apply Forall_forall. intros [k v] Hkv.
  apply elem_of_map_to_list in Hkv. simpl. eapply H. exact Hkv.
Qed.

Lemma page_balanced a tail offset limit :
  balanced_texts a -> count_marks tail = 2%nat ->
  count_marks (getSql a ++ tail)%string
  = length (args a ++ [ArgUint32 offset; ArgUint32 limit]).
Proof.
  intros [H1 _] Ht. rewrite count_marks_app, length_app, H1, Ht. reflexivity.
Qed.

(** As long as no filter key holds a question mark, every text the two
    listings hand to the driver has exactly as many placeholders as the
    call has arguments: the count with the arguments gathered from the
    filters, the page with two more for the offset and the limit. *)
Theorem listings_are_balanced env (filters : gmap string string)
    (offset limit : Z) (w : world) :
  (forall k v, filters !! k = Some v -> count_marks k = 0%nat) ->
  Forall balanced
    (calls_since w (snd (GetUsers env filters offset limit w))).
Proof.
  intros Hkeys. unfold calls_since, GetUsers.
  destruct (filters !! "group_id"%string) as [g0 |] eqn:Hg.
  - unfold listGroupUsers.
    destruct (filters !! GroupIDAttribute env) as [group |] eqn:Hgroup.
    2: { simpl. rewrite drop_all. constructor. }
    cbv zeta.
    match goal with
    | |- context [fold_left listGroupUsers_step (map_to_list ?f) ?init] =>
      assert (balanced_texts (fold_left listGroupUsers_step (map_to_list f) init))
        as Hbal;
        [apply fold_balanced;
         [apply listGroupUsers_step_balanced
         | apply keys_without_marks
         | split; reflexivity]
        | set (a := fold_left listGroupUsers_step (map_to_list f) init) in * ]
    end.
    { intros k v Hkv.
      apply lookup_delete_Some in Hkv as [_ Hkv].
      apply lookup_insert_Some in Hkv as [[<- _] | [_ Hkv]];
        [reflexivity | eapply Hkeys; exact Hkv]. }
    match goal with
    | |- context [bind (queryEntryCount env Slave ?t ?a0)
                       (fun n => bind (collectUsers env Master ?q) _)] =>
      destruct (page_after_count env (queryEntryCount env Slave t a0)
                  (CCount Slave t a0) q w) as (rest & Hcalls & Hrest & _);
        [apply queryEntryCount_calls |]
    end.
    match goal with
    | H : calls (snd (?m w)) = _ |- _ => destruct (m w) as [r w']
    end.
    simpl in *. rewrite Hcalls, drop_app_length.
    constructor; [apply Hbal |].
    destruct Hrest as [-> | ->]; [constructor |].
    constructor; [| constructor]. simpl.
    apply page_balanced; [exact Hbal | reflexivity].
  - unfold listUsers. cbv zeta.
    match goal with
    | |- context [fold_left (listUsers_step env) (map_to_list ?f) ?init] =>
      assert (balanced_texts (fold_left (listUsers_step env) (map_to_list f) init))
        as Hbal;
        [apply fold_balanced;
         [apply listUsers_step_balanced
         | apply keys_without_marks; exact Hkeys
         | split; reflexivity]
        | set (a := fold_left (listUsers_step env) (map_to_list f) init) in * ]
    end.
    match goal with
    | |- context [bind (map_err store_Error (queryEntryCount env Master ?t ?a0))
                       (fun n => bind (collectUsers env Master ?q) _)] =>
      destruct (page_after_count env
                  (map_err store_Error (queryEntryCount env Master t a0))
                  (CCount Master t a0) q w) as (rest & Hcalls & Hrest & _);
        [rewrite map_err_calls; apply queryEntryCount_calls |]
    end.
    match goal with
    | H : calls (snd (?m w)) = _ |- _ => destruct (m w) as [r w']
    end.
    simpl in *. rewrite Hcalls, drop_app_length.
    constructor; [apply Hbal |].
    destruct Hrest as [-> | ->]; [constructor |].
    constructor; [| constructor]. simpl.
    apply page_balanced; [exact Hbal | reflexivity].
Qed.

Lemma listings_are_balanced_witness :
  Forall balanced
    (calls_since (world_of users_database [])
       (snd (GetUsers example_env
               (<["name"%string := "svc*"%string]>
                  (<["owner"%string := "u1"%string]> (∅ : gmap string string)))
               0 10 (world_of users_database [])))).
Proof.
  apply (listings_are_balanced example_env
           (<["name"%string := "svc*"%string]>
              (<["owner"%string := "u1"%string]> (∅ : gmap string string)))
           0 10 (world_of users_database [])).
  intros k v Hkv.
  apply lookup_insert_Some in Hkv as [[<- _] | [_ Hkv]]; [reflexivity |].
  apply lookup_insert_Some in Hkv as [[<- _] | [_ Hkv]]; [reflexivity |].
  rewrite lookup_empty in Hkv. discriminate.
Defined.

(** The condition on the keys is needed: a key with a question mark
    gives a count text with two placeholders for one argument. *)
Lemma key_with_mark_unbalances :
  ~ Forall balanced
      (calls_since (world_of users_database [])
         (snd (GetUsers example_env
                 (<["a?"%string := "x"%string]> (∅ : gmap string string))
                 0 10 (world_of users_database [])))).
Proof.
  intros H. vm_compute in H. inversion H as [| c cs Hc _]; subst.
  discriminate.
Qed.

End ReadMore.

(** ** The user store: more on the writes *)

Module WriteMore.
Import Sqldb ReadFacts WriteFacts.
Local Open Scope list_scope.

(** *** Steps of a transaction and the committed state *)

Section Committed.

Variable env : Env.
Variables d0 s0 : database.
Variable n0 : Z.

Let M0 := settled d0 s0 n0.

(** What an attempt, or a whole write, leaves behind: the slave and the
    clock as they were and, when it fails, the master as it was. *)
Let Q {A} (r : res A) (w : world) : Prop :=
  slave w = s0 /\ now w = n0 /\ (failed r -> master w = d0).

Lemma quiet_M0 : quiet M0.
Proof. intros w Hw c f. split; exact Hw. Qed.

Lemma Begin_settled : triple M0 Begin (fun _ w' => M0 w').
Proof.
  apply triple_driver; [apply quiet_M0 | auto |]. intros w Hw. exact Hw.
Qed.

Lemma tx_Exec_settled s : triple M0 (tx_Exec env s) (fun _ w' => M0 w').
Proof.
  apply triple_driver; [apply quiet_M0 | auto |].
  intros w Hw. cbv beta. destruct (tx w) as [t |]; [| exact Hw].
  destruct (exec env s (now w) t) as [e | [t' r]]; exact Hw.
Qed.

Lemma newUUID_settled : triple M0 (newUUID env) (fun _ w' => M0 w').
Proof. intros w Hw. exact Hw. Qed.

Lemma tx_Commit_settled : triple M0 tx_Commit (fun r w' => Q r (tx_Rollback w')).
Proof.
  apply triple_driver; [apply quiet_M0 | |].
  - intros e w (H1 & H2 & H3). repeat split; auto.
  - intros w (H1 & H2 & H3). cbv beta.
    destruct (tx w) as [t |]; repeat split; auto. intros [].
Qed.

Lemma M0_Q {A} (r : res A) w : M0 w -> Q r (tx_Rollback w).
Proof. intros (H1 & H2 & H3). repeat split; auto. Qed.

(** A chain of steps inside the transaction, closed by the commit. *)
Lemma step_then {A B} (m : M A) (k : A -> M B) :
  triple M0 m (fun _ w' => M0 w') ->
  (forall a, triple M0 (k a) (fun r w' => Q r (tx_Rollback w'))) ->
  triple M0 (bind m k) (fun r w' => Q r (tx_Rollback w')).
Proof.
  intros Hm Hk. apply (triple_bind _ _ _ (fun _ => M0)); [| exact Hk].
  intros w Hw. specialize (Hm w Hw).
  destruct (fst (m w)); [exact Hm | apply M0_Q; exact Hm].
Qed.

Lemma in_transaction {A} (body : M A) :
  triple M0 body (fun r w' => Q r (tx_Rollback w')) ->
  triple M0 (bind Begin (fun _ => defer tx_Rollback body)) (fun r w' => Q r w').
Proof.
  intros Hbody. apply (triple_bind _ _ _ (fun _ => M0)).
  - intros w Hw. pose proof (Begin_settled w Hw) as H.
    destruct (fst (Begin w)); [exact H |].
    destruct H as (H1 & H2 & H3). repeat split; auto.
  - intros _. apply triple_defer. exact Hbody.
Qed.

Lemma createDefaultStrategy_settled role id_ owner_ :
  triple M0 (createDefaultStrategy env role id_ owner_) (fun _ w' => M0 w').
Proof.
  unfold createDefaultStrategy.
  apply triple_seq; [apply newUUID_settled | intros strategyID].
  apply triple_seq; [apply newUUID_settled | intros revision].
  apply triple_seq; [apply tx_Exec_settled | intros _].
  apply triple_seq; [apply tx_Exec_settled | intros _].
  apply triple_ret. auto.
Qed.

Lemma cleanLinkStrategy_settled role id_ :
  triple M0 (cleanLinkStrategy env role id_) (fun _ w' => M0 w').
Proof.
  unfold cleanLinkStrategy.
  apply triple_seq; [apply tx_Exec_settled | intros _].
  apply triple_seq; [apply tx_Exec_settled | intros _].
  apply triple_seq; [apply tx_Exec_settled | intros _].
  apply triple_seq; [apply tx_Exec_settled | intros _].
  apply triple_ret. auto.
Qed.

Lemma addUser_atomic u : triple M0 (addUser env u) (fun r w' => Q r w').
Proof.
  unfold addUser. apply in_transaction.
  apply step_then; [apply tx_Exec_settled | intros _].
  apply step_then; [| intros _; apply tx_Commit_settled].
  apply triple_map_err.
  eapply triple_weaken; [apply createDefaultStrategy_settled | auto |].
  intros [a | e] w Hw; exact Hw.
Qed.

Lemma updateUser_atomic u : triple M0 (updateUser env u) (fun r w' => Q r w').
Proof.
  unfold updateUser. apply in_transaction. cbv zeta.
  apply step_then; [apply tx_Exec_settled | intros _; apply tx_Commit_settled].
Qed.

Lemma deleteUser_atomic id_ : triple M0 (deleteUser env id_) (fun r w' => Q r w').
Proof.
  unfold deleteUser. apply in_transaction.
  apply step_then; [apply tx_Exec_settled | intros _].
  apply step_then; [apply tx_Exec_settled | intros _].
  apply step_then; [apply cleanLinkStrategy_settled | intros _].
  apply tx_Commit_settled.
Qed.

(** The retry loop around an attempt that is all or nothing. *)
Lemma retry_atomic (body : M unit) :
  triple M0 body (fun r w' => Q r w') ->
  forall n last, triple M0 (retry n last body) (fun r w' => Q r w').
Proof.
  intros Hbody n. induction n as [| n IH]; intros last w Hw; simpl.
  - destruct Hw as (H1 & H2 & H3). repeat split; auto.
  - specialize (Hbody w Hw).
    destruct (body w) as [[a | e] w']; simpl in *; [exact Hbody |].
    destruct Hbody as (H1 & H2 & H3).
    destruct (transient e).
    + apply IH. repeat split; auto. apply H3. exact I.
    + repeat split; auto.
Qed.

Lemma retried_atomic label (body : M unit) :
  triple M0 body (fun r w' => Q r w') ->
  triple M0 (map_err store_Error (RetryTransaction env label body))
         (fun r w' => Q r w').
Proof.
  intros Hbody. apply triple_map_err. unfold RetryTransaction.
  eapply triple_weaken; [apply (retry_atomic body Hbody) | auto |].
  intros [a | e] w H; exact H.
Qed.

End Committed.

Lemma settled_here w : settled (master w) (slave w) (now w) w.
Proof. unfold settled. tauto. Qed.

Lemma exec_DeleteStaleUser env name_ sysdate d :
  exists r, exec env (DeleteStaleUser name_) sysdate d
            = inr (reclaimed name_ d, r).
Proof. eexists. reflexivity. Qed.

(** The reclamation runs on the handle: an error leaves the store as it
    was, success leaves the store reclaimed. *)
Lemma cleanInValidUser_master env name_ w :
  slave (snd (cleanInValidUser env name_ w)) = slave w
  /\ now (snd (cleanInValidUser env name_ w)) = now w
  /\ tx (snd (cleanInValidUser env name_ w)) = tx w
  /\ match fst (cleanInValidUser env name_ w) with
     | Ok _ => master (snd (cleanInValidUser env name_ w))
               = reclaimed name_ (master w)
     | Err _ => master (snd (cleanInValidUser env name_ w)) = master w
     end.
Proof.
  unfold cleanInValidUser, bind, ret, db_Exec, driver. simpl.
  destruct (faults w) as [| [s |] rest]; simpl; auto.
Qed.

Lemma AddUser_unfold env u w :
  missing u = false ->
  AddUser env u w
  = match cleanInValidUser env (Name u) w with
    | (Ok _, w1) =>
      map_err store_Error (RetryTransaction env "addUser" (addUser env u)) w1
    | (Err e, w1) => (Err e, w1)
    end.
Proof. intros Hmiss. unfold AddUser, bind. rewrite Hmiss. reflexivity. Qed.

(** A write that fails has written nothing.  [UpdateUser] and
    [DeleteUser] that return an error leave the master as it was;
    [AddUser] that returns an error leaves it as it was or, when the
    failure came after the reclamation, without the soft-deleted rows of
    the name.  No write touches the slave, and a write refused for an
    empty field makes no call at all. *)
Theorem failed_write_writes_nothing env (w : world) :
  (forall u, slave (snd (UpdateUser env u w)) = slave w
             /\ (failed (fst (UpdateUser env u w)) ->
                 master (snd (UpdateUser env u w)) = master w))
  /\ (forall id_, slave (snd (DeleteUser env id_ w)) = slave w
                  /\ (failed (fst (DeleteUser env id_ w)) ->
                      master (snd (DeleteUser env id_ w)) = master w))
  /\ (forall u, slave (snd (AddUser env u w)) = slave w
                /\ (failed (fst (AddUser env u w)) ->
                    master (snd (AddUser env u w)) = master w
                    \/ master (snd (AddUser env u w))
                       = reclaimed (Name u) (master w)))
  /\ (forall u, missing u = true ->
                failed (fst (AddUser env u w)) /\ snd (AddUser env u w) = w
                /\ failed (fst (UpdateUser env u w))
                /\ snd (UpdateUser env u w) = w)
  /\ (failed (fst (DeleteUser env "" w)) /\ snd (DeleteUser env "" w) = w).
Proof.
  split; [| split; [| split; [| split]]].
  - intros u. unfold UpdateUser. destruct (missing u); [simpl; auto |].
    destruct (retried_atomic env (master w) (slave w) (now w) "updateUser"
                (updateUser env u) (updateUser_atomic env _ _ _ u) w
                (settled_here w)) as (H1 & _ & H3).
    auto.
  - intros id_. unfold DeleteUser. destruct (String.eqb id_ ""); [simpl; auto |].
    destruct (retried_atomic env (master w) (slave w) (now w) "deleteUser"
                (deleteUser env id_) (deleteUser_atomic env _ _ _ id_) w
                (settled_here w)) as (H1 & _ & H3).
    auto.
  - intros u. destruct (missing u) eqn:Hmiss;
      [unfold AddUser; rewrite Hmiss; simpl; auto |].
    rewrite (AddUser_unfold env u w Hmiss).
    pose proof (cleanInValidUser_master env (Name u) w) as (Hs & Hn & _ & Hm).
    destruct (cleanInValidUser env (Name u) w) as [[[] | e] w1]; simpl in *.
    + destruct (retried_atomic env (master w1) (slave w1) (now w1) "addUser"
                  (addUser env u) (addUser_atomic env _ _ _ u) w1
                  (settled_here w1)) as (H1 & _ & H3).
      split; [congruence |]. intros Hfail. right. rewrite (H3 Hfail). exact Hm.
    + auto.
  - intros u Hmiss. unfold AddUser, UpdateUser. rewrite Hmiss. simpl. auto.
  - unfold DeleteUser. simpl. auto.
Qed.

Lemma failed_write_writes_nothing_witness :
  failed (fst (AddUser example_env newUser (world_of users_database [])))
  /\ snd (AddUser example_env newUser (world_of users_database []))
     = world_of users_database [].
Proof.
  destruct (failed_write_writes_nothing example_env (world_of users_database []))
    as (_ & _ & _ & H & _).
  destruct (H newUser eq_refl) as (H1 & H2 & _). auto.
Defined.

(** *** What a write commits *)

Section Outcome.

Variable env : Env.
Variables d0 s0 : database.
Variable n0 : Z.

Let M0 := settled d0 s0 n0.

Lemma quiet_in_tx P : quiet (in_tx d0 s0 n0 P).
Proof. intros w Hw c f. split; exact Hw. Qed.

Lemma settled_outcome {A} good (e : error) w :
  M0 w -> outcome (A := A) d0 s0 n0 good (Err e) w.
Proof. intros (H1 & H2 & H3). repeat split; auto. Qed.

Lemma Begin_opens :
  triple M0 Begin
    (fun r w' => match r with
                 | Ok _ => in_tx d0 s0 n0 (eq d0) w'
                 | Err _ => M0 w'
                 end).
Proof.
  apply triple_driver; [apply (quiet_M0 d0 s0 n0) | auto |].
  intros w Hw. simpl. split; [exact Hw |].
  exists (master w). split; [reflexivity |]. symmetry. apply Hw.
Qed.

Lemma tx_Exec_step (P P' : database -> Prop) s :
  (forall c c' r, P c -> exec env s n0 c = inr (c', r) -> P' c') ->
  triple (in_tx d0 s0 n0 P) (tx_Exec env s)
    (fun r w' => match r with
                 | Ok _ => in_tx d0 s0 n0 P' w'
                 | Err _ => M0 w'
                 end).
Proof.
  intros Hstep.
  apply triple_driver; [apply quiet_in_tx | intros e w Hw; apply Hw |].
  intros w [Hw (c & Hc & HP)]. cbv beta. rewrite Hc.
  assert (now w = n0) as Hn by apply Hw. rewrite Hn.
  destruct (exec env s n0 c) as [e | [c' r]] eqn:He; cbn [fst snd].
  - exact Hw.
  - split; [exact Hw |]. exists c'. split; [reflexivity |].
    eapply Hstep; eassumption.
Qed.

Lemma tx_Commit_step (P : database -> Prop) :
  triple (in_tx d0 s0 n0 P) tx_Commit (fun r w' => outcome d0 s0 n0 P r w').
Proof.
  apply triple_driver; [apply quiet_in_tx | |].
  - intros e w [Hw _]. apply settled_outcome. exact Hw.
  - intros w [(H1 & H2 & H3) (c & Hc & HP)]. cbv beta. rewrite Hc.
    repeat split; auto.
Qed.

(** One step inside the transaction, then the rest. *)
Lemma tx_step {A B} (P : world -> Prop) (m : M A) (Pa : A -> world -> Prop)
    (k : A -> M B) good :
  triple P m (fun r w' => match r with
                          | Ok a => Pa a w'
                          | Err _ => M0 w'
                          end) ->
  (forall a, triple (Pa a) (k a) (fun r w' => outcome d0 s0 n0 good r w')) ->
  triple P (bind m k) (fun r w' => outcome d0 s0 n0 good r w').
Proof.
  intros Hm Hk. apply (triple_bind _ _ _ Pa); [| exact Hk].
  intros w Hw. specialize (Hm w Hw).
  destruct (fst (m w)); [exact Hm | apply settled_outcome; exact Hm].
Qed.

Lemma transaction {A} (body : M A) good :
  triple (in_tx d0 s0 n0 (eq d0)) body
         (fun r w' => outcome d0 s0 n0 good r w') ->
  triple M0 (bind Begin (fun _ => defer tx_Rollback body))
         (fun r w' => outcome d0 s0 n0 good r w').
Proof.
  intros Hbody. apply (tx_step _ _ (fun _ => in_tx d0 s0 n0 (eq d0)));
    [apply Begin_opens |].
  intros _. apply triple_defer.
  eapply triple_weaken; [exact Hbody | auto |]. intros r w H. exact H.
Qed.

(** The retry loop: it ends as one of its attempts ends, provided it
    makes at least one. *)
Lemma retry_outcome good (body : M unit) :
  triple M0 body (fun r w' => outcome d0 s0 n0 good r w') ->
  forall n last w,
    M0 w -> (n = O -> failed last) ->
    outcome d0 s0 n0 good (fst (retry n last body w))
            (snd (retry n last body w)).
Proof.
  intros Hbody n. induction n as [| n IH]; intros last w Hw Hlast; simpl.
  - specialize (Hlast eq_refl). destruct last as [a | e]; [destruct Hlast |].
    apply settled_outcome. exact Hw.
  - specialize (Hbody w Hw).
    destruct (body w) as [[a | e] w']; simpl in *; [exact Hbody |].
    destruct (transient e); [| exact Hbody].
    apply IH; [| intros _; exact I].
    destruct Hbody as (H1 & H2 & H3). repeat split; auto.
Qed.

Lemma retried_outcome good label (body : M unit) w :
  triple M0 body (fun r w' => outcome d0 s0 n0 good r w') ->
  (0 < RetryTimes env)%nat ->
  M0 w ->
  outcome d0 s0 n0 good
    (fst (map_err store_Error (RetryTransaction env label body) w))
    (snd (map_err store_Error (RetryTransaction env label body) w)).
Proof.
  intros Hbody Hn Hw. unfold map_err, RetryTransaction.
  pose proof (retry_outcome good body Hbody (RetryTimes env) (Ok tt) w Hw
                ltac:(lia)) as H.
  destruct (retry (RetryTimes env) (Ok tt) body w) as [[a | e] w']; exact H.
Qed.




(** [addUser] commits one more user row, one more strategy and one
    more binding, the strategy and the binding under the identifier
    drawn first, the revision being the identifier drawn second. *)
Lemma newUUID_draws (P : database -> Prop) :
  triple (in_tx d0 s0 n0 P) (newUUID env)
    (fun r w' => match r with
                 | Ok x => in_tx d0 s0 n0 P w'
                           /\ exists k, x = NewUUID env k /\ next_uuid w' = S k
                 | Err _ => M0 w'
                 end).
Proof.
  intros w Hw. simpl. split; [exact Hw |]. exists (next_uuid w). auto.
Qed.

Lemma createDefaultStrategy_outcome u :
  triple (in_tx d0 s0 n0 (eq (with_user (user d0 ++ [new_user_row env u n0]) d0)))
    (createDefaultStrategy env PrincipalUser (ID u) (Owner u))
    (fun r w' => match r with
                 | Ok _ => in_tx d0 s0 n0
                             (fun d => exists k, d = provisioned_with env u n0 k d0)
                             w'
                 | Err _ => M0 w'
                 end).
Proof.
  unfold createDefaultStrategy.
  set (P1 := eq (with_user (user d0 ++ [new_user_row env u n0]) d0)).
  apply (triple_bind _ _ _
           (fun x w' => in_tx d0 s0 n0 P1 w'
                        /\ exists k, x = NewUUID env k /\ next_uuid w' = S k));
    [apply newUUID_draws |].
  intros strategyID.
  apply (triple_bind _ _ _
           (fun x w' => in_tx d0 s0 n0 P1 w'
                        /\ exists k, strategyID = NewUUID env k
                                     /\ x = NewUUID env (S k))).
  { intros w [Hw (k & Hk & Hnext)]. simpl. split; [exact Hw |].
    exists k. rewrite Hnext. auto. }
  intros revision.
  apply (triple_bind _ _ _
           (fun _ w' =>
              in_tx d0 s0 n0
                (fun d => exists k,
                     strategyID = NewUUID env k
                     /\ d = with_strategy
                              (auth_strategy d0 ++ [new_strategy_row env u k])
                              (with_user (user d0 ++ [new_user_row env u n0]) d0))
                w')).
  { intros w [Hw (k & Hk & Hrev)].
    pose proof (tx_Exec_step P1
                  (fun d => exists k,
                       strategyID = NewUUID env k
                       /\ d = with_strategy
                                (auth_strategy d0 ++ [new_strategy_row env u k])
                                (with_user (user d0 ++ [new_user_row env u n0]) d0))
                  (InsertStrategy strategyID
                     (BuildDefaultStrategyName env (ID u) PrincipalUser)
                     "READ_WRITE" (Owner u) "default user auth_strategy"
                     0 true revision)) as Hstep.
    apply Hstep; [| exact Hw].
    intros c c' r <- He. simpl in He. injection He as <- _.
    exists k. split; [exact Hk |]. subst strategyID revision. reflexivity. }
  intros _.
  apply (triple_bind _ _ _
           (fun _ w' =>
              in_tx d0 s0 n0
                (fun d => exists k, d = provisioned_with env u n0 k d0) w')).
  { apply tx_Exec_step. intros c c' r (k & Hk & ->) He. simpl in He.
    injection He as <- _. exists k. subst strategyID. reflexivity. }
  intros _. apply triple_ret. auto.
Qed.

Lemma addUser_outcome u :
  triple M0 (addUser env u)
    (fun r w' => outcome d0 s0 n0
                   (fun d => exists k, d = provisioned_with env u n0 k d0) r w').
Proof.
  unfold addUser. apply transaction.
  apply (tx_step _ _
           (fun _ => in_tx d0 s0 n0
                       (eq (with_user (user d0 ++ [new_user_row env u n0]) d0)))).
  { apply tx_Exec_step. intros c c' r <- He. simpl in He.
    injection He as <- _. reflexivity. }
  intros _.
  apply (tx_step _ _
           (fun _ => in_tx d0 s0 n0
                       (fun d => exists k, d = provisioned_with env u n0 k d0))).
  { apply triple_map_err.
    eapply triple_weaken; [apply createDefaultStrategy_outcome | auto |].
    intros [a | e] w H; exact H. }
  intros _. apply tx_Commit_step.
Qed.

End Outcome.



Lemma AddUser_ok_master env u w :
  (0 < RetryTimes env)%nat ->
  fst (AddUser env u w) = Ok tt ->
  missing u = false
  /\ exists k,
       master (snd (AddUser env u w))
       = provisioned_with env u (now w) k (reclaimed (Name u) (master w)).
Proof.
  intros Hn Hok.
  destruct (missing u) eqn:Hmiss.
  { unfold AddUser in Hok. rewrite Hmiss in Hok. discriminate. }
  split; [reflexivity |].
  rewrite (AddUser_unfold env u w Hmiss) in *.
  pose proof (cleanInValidUser_master env (Name u) w) as (Hs & Hnow & _ & Hm).
  destruct (cleanInValidUser env (Name u) w) as [[[] | e] w1]; simpl in *;
    [| discriminate].
  pose proof (retried_outcome env (master w1) (slave w1) (now w1) _ "addUser"
                (addUser env u) w1
                (addUser_outcome env _ _ _ u) Hn (settled_here w1))
    as (_ & _ & H).
  rewrite Hok in H. destruct H as [k Hk]. exists k.
  rewrite Hk, Hm, Hnow. reflexivity.
Qed.

(** *** No transaction is left open *)

Lemma transaction_closed {A} (body : M A) :
  triple (fun w => tx w = None)
         (bind Begin (fun _ => defer tx_Rollback body))
         (fun _ w' => tx w' = None).
Proof.
  apply (triple_bind _ _ _ (fun _ _ => True)).
  - apply triple_driver.
    + intros w Hw c f. split; exact Hw.
    + intros e w Hw. exact Hw.
    + intros w Hw. exact I.
  - intros _. apply triple_defer. intros w _. reflexivity.
Qed.

Lemma retried_closed env label (body : M unit) :
  triple (fun w => tx w = None) body (fun _ w' => tx w' = None) ->
  triple (fun w => tx w = None)
         (map_err store_Error (RetryTransaction env label body))
         (fun _ w' => tx w' = None).
Proof.
  intros Hbody. apply triple_map_err. unfold RetryTransaction.
  eapply triple_weaken;
    [apply (triple_retry (fun w => tx w = None) body Hbody) | auto |].
  intros [a | e] w H; exact H.
Qed.

(** Called with no transaction open, each of the three writes returns
    with no transaction open, whatever the driver answered: the
    deferred rollback closes what a failed attempt leaves. *)
Theorem writes_close_their_transaction env (w : world) :
  tx w = None ->
  (forall u, tx (snd (AddUser env u w)) = None)
  /\ (forall u, tx (snd (UpdateUser env u w)) = None)
  /\ (forall id_, tx (snd (DeleteUser env id_ w)) = None).
Proof.
  intros Htx. split; [| split].
  - intros u. destruct (missing u) eqn:Hmiss.
    { unfold AddUser. rewrite Hmiss. exact Htx. }
    rewrite (AddUser_unfold env u w Hmiss).
    pose proof (cleanInValidUser_master env (Name u) w) as (_ & _ & Ht & _).
    destruct (cleanInValidUser env (Name u) w) as [[[] | e] w1]; simpl in *;
      [| congruence].
    apply (retried_closed env "addUser" (addUser env u)
             (transaction_closed _) w1). congruence.
  - intros u. unfold UpdateUser. destruct (missing u); [exact Htx |].
    apply (retried_closed env "updateUser" (updateUser env u)
             (transaction_closed _) w Htx).
  - intros id_. unfold DeleteUser. destruct (String.eqb id_ ""); [exact Htx |].
    apply (retried_closed env "deleteUser" (deleteUser env id_)
             (transaction_closed _) w Htx).
Qed.

Lemma writes_close_their_transaction_witness :
  tx (snd (AddUser example_env alice
             (world_of empty_database [None; None; Some Deadlock]))) = None
  /\ tx (snd (DeleteUser example_env "u1"
                (world_of (provisioned example_env) []))) = None.
Proof.
  split.
  - apply (writes_close_their_transaction example_env
             (world_of empty_database [None; None; Some Deadlock]) eq_refl).
  - apply (writes_close_their_transaction example_env
             (world_of (provisioned example_env) []) eq_refl).
Defined.

(** *** [AddUser], and reading the user back *)

Lemma reclaimed_rows name_ d row :
  In row (user (reclaimed name_ d)) <->
  In row (user d) /\ ~ (name row = name_ /\ flag row = 1).
Proof.
  unfold reclaimed. simpl. rewrite filter_In, negb_true_iff, andb_false_iff.
  rewrite String.eqb_neq, Z.eqb_neq. split; intros [H1 H2]; split; auto.
  - intros [Hn Hf]. destruct H2; auto.
  - destruct (String.eqb_spec (name row) name_); [| auto].
    destruct (Z.eq_dec (flag row) 1); [| auto]. exfalso. auto.
Qed.

(** When [AddUser] returns the nil error (the retry wrapper making at
    least one attempt), the master has gained exactly one user row, one
    strategy named for the user kind and one binding of the user to that
    strategy; no row that was not soft-deleted has been lost, and no
    soft-deleted row bears the name any more. *)
Theorem AddUser_commits env (u : User) (w : world) :
  (0 < RetryTimes env)%nat ->
  fst (AddUser env u w) = Ok tt ->
  (exists k,
     master (snd (AddUser env u w))
     = provisioned_with env u (now w) k (reclaimed (Name u) (master w)))
  /\ (forall row, In row (user (master w)) -> flag row = 0 ->
                  In row (user (master (snd (AddUser env u w)))))
  /\ (forall row, In row (user (master (snd (AddUser env u w)))) ->
                  name row = Name u -> flag row <> 1)
  /\ auth_strategy_resource (master (snd (AddUser env u w)))
     = auth_strategy_resource (master w)
  /\ user_group_relation (master (snd (AddUser env u w)))
     = user_group_relation (master w).
Proof.
  intros Hn Hok.
  destruct (AddUser_ok_master env u w Hn Hok) as (_ & k & Hk).
  split; [exists k; exact Hk |]. rewrite Hk. simpl.
  split; [| split; [| split; reflexivity]].
  - intros row Hrow Hflag. apply in_or_app. left.
    apply (reclaimed_rows (Name u) (master w) row). split; [exact Hrow |].
    intros [_ H1]. lia.
  - intros row Hrow Hname Hflag. apply in_app_or in Hrow as [Hrow | [<- | []]].
    + apply (reclaimed_rows (Name u) (master w) row) in Hrow as [_ Hrow]. auto.
    + simpl in Hflag. discriminate.
Qed.

Lemma AddUser_commits_witness :
  exists k,
    master (snd (AddUser example_env alice
                   (world_of empty_database [None; None; Some Deadlock])))
    = provisioned_with example_env alice 1700000000 k
        (reclaimed "alice" empty_database).
Proof.
  destruct (AddUser_commits example_env alice
              (world_of empty_database [None; None; Some Deadlock]))
    as [H _]; [simpl; lia | vm_compute; reflexivity |].
  exact H.
Defined.

(** The round trip of a user: after an [AddUser] that returned the nil
    error, [GetUser] on the id (no visible row bore it before, and the
    name is not the reserved one) returns the id, name, password, owner,
    source, token and type that were passed.  The token-enable flag is
    what the table gives a new row, not what was passed, and the comment
    does not come back. *)
Theorem AddUser_then_GetUser env (u : User) (w : world) :
  (0 < RetryTimes env)%nat ->
  fst (AddUser env u w) = Ok tt ->
  Name u <> "polariadmin"%string ->
  (forall row, In row (user (master w)) ->
     flag row = 0 -> name row <> "polariadmin"%string -> id row <> ID u) ->
  forall w', master w' = master (snd (AddUser env u w)) ->
    goes_through w' = true ->
    exists U,
      fst (GetUser env (ID u) w') = Ok (Some U)
      /\ ID U = ID u /\ Name U = Name u /\ Password U = Password u
      /\ Owner U = Owner u /\ Source U = Source u /\ Token U = Token u
      /\ Type_ U = Type_ u
      /\ TokenEnable U = (token_enable_default env =? 1)
      /\ Comment U = ""%string.
Proof.
  intros Hn Hok Hname Hfresh w' Hmaster Hgo.
  destruct (AddUser_ok_master env u w Hn Hok) as (_ & k & Hk).
  exists (scanUser (new_user_row env u (now w))).
  split; [| simpl; repeat split; reflexivity].
  unfold GetUser, scanned.
  pose proof (db_QueryRow_through env Master (SelectUserByID (ID u)) w' Hgo) as Hq.
  destruct (db_QueryRow env Master (SelectUserByID (ID u)) w') as [r w2].
  simpl in Hq. subst r. rewrite Hmaster, Hk. simpl.
  rewrite List.filter_app, filter_none.
  - simpl. rewrite String.eqb_refl.
    destruct (String.eqb_spec (Name u) "polariadmin"%string); [congruence |].
    reflexivity.
  - intros row Hrow.
    apply (reclaimed_rows (Name u) (master w) row) in Hrow as [Hrow _].
    specialize (Hfresh row Hrow).
    destruct (Z.eqb_spec (flag row) 0); [| reflexivity].
    destruct (String.eqb_spec (name row) "polariadmin"%string); [reflexivity |].
    destruct (String.eqb_spec (id row) (ID u)); [| reflexivity].
    exfalso. apply Hfresh; assumption.
Qed.

Lemma AddUser_then_GetUser_witness :
  exists U,
    fst (GetUser example_env "u1"
           (snd (AddUser example_env alice (world_of empty_database []))))
    = Ok (Some U)
    /\ Name U = "alice"%string /\ Comment U = ""%string.
Proof.
  destruct (AddUser_then_GetUser example_env alice (world_of empty_database []))
    with (w' := snd (AddUser example_env alice (world_of empty_database [])))
    as (U & H1 & _ & H2 & _ & _ & _ & _ & _ & _ & H3).
  - simpl. lia.
  - vm_compute. reflexivity.
  - discriminate.
  - intros row [].
  - reflexivity.
  - vm_compute. reflexivity.
  - exists U. auto.
Defined.

(** *** [UpdateUser], and reading the credentials back *)



(** *** [DeleteUser] *)

Lemma bind_failed_k {A B} (m : M A) (k : A -> M B) w :
  (forall a w1, failed (fst (k a w1))) -> failed (fst (bind m k w)).
Proof.
  intros Hk. unfold bind. destruct (m w) as [[a | e] w1]; [apply Hk | exact I].
Qed.

Lemma bind_failed_m {A B} (m : M A) (k : A -> M B) w :
  failed (fst (m w)) -> failed (fst (bind m k w)).
Proof.
  unfold bind. destruct (m w) as [[a | e] w1]; simpl; [intros [] | auto].
Qed.

Lemma defer_failed {A} cleanup (m : M A) w :
  failed (fst (m w)) -> failed (fst (defer cleanup m w)).
Proof. unfold defer. destruct (m w) as [r w1]. auto. Qed.

Lemma map_err_failed {A} f (m : M A) w :
  failed (fst (m w)) -> failed (fst (map_err f m w)).
Proof. unfold map_err. destruct (m w) as [[a | e] w1]; simpl; auto. Qed.

Lemma tx_Exec_links_fails env id_ role w :
  principa_id env = None ->
  failed (fst (tx_Exec env (DeletePrincipalLinks id_ role) w)).
Proof.
  intros Hcol. unfold tx_Exec, driver. simpl. rewrite Hcol.
  destruct (faults w) as [| [s |] rest]; simpl; try exact I;
    destruct (tx w); exact I.
Qed.

Lemma deleteUser_fails env id_ w :
  principa_id env = None -> failed (fst (deleteUser env id_ w)).
Proof.
  intros Hcol. unfold deleteUser.
  apply bind_failed_k. intros _ w1. apply defer_failed.
  apply bind_failed_k. intros _ w2.
  apply bind_failed_k. intros _ w3.
  apply bind_failed_m. unfold cleanLinkStrategy.
  apply bind_failed_k. intros _ w4.
  apply bind_failed_k. intros _ w5.
  apply bind_failed_k. intros _ w6.
  apply bind_failed_m. apply tx_Exec_links_fails. exact Hcol.
Qed.

Lemma retry_fails (body : M unit) :
  (forall w, failed (fst (body w))) ->
  forall n last w, (n = O -> failed last) -> failed (fst (retry n last body w)).
Proof.
  intros Hbody n. induction n as [| n IH]; intros last w Hlast; simpl.
  - apply Hlast. reflexivity.
  - specialize (Hbody w). destruct (body w) as [[a | e] w']; simpl in *;
      [destruct Hbody |].
    destruct (transient e); [apply IH; intros _; exact I | exact I].
Qed.

(** On a table [auth_principal] that has no column [principa_id], the
    name the last statement of [cleanLinkStrategy] uses, [DeleteUser]
    never returns the nil error (the retry wrapper making at least one
    attempt): whatever the id and the store, it fails and the master is
    as before, no row soft-deleted. *)
Theorem DeleteUser_needs_the_column env (id_ : string) (w : world) :
  principa_id env = None ->
  (0 < RetryTimes env)%nat ->
  failed (fst (DeleteUser env id_ w))
  /\ master (snd (DeleteUser env id_ w)) = master w.
Proof.
  intros Hcol Hn.
  assert (failed (fst (DeleteUser env id_ w))) as Hfail.
  { unfold DeleteUser. destruct (String.eqb id_ ""); [exact I |].
    apply map_err_failed. unfold RetryTransaction.
    apply retry_fails; [intros w1; apply deleteUser_fails; exact Hcol | lia]. }
  split; [exact Hfail |].
  revert Hfail. unfold DeleteUser. destruct (String.eqb id_ ""); [reflexivity |].
  intros Hfail.
  destruct (retried_atomic env (master w) (slave w) (now w) "deleteUser"
              (deleteUser env id_) (deleteUser_atomic env _ _ _ id_) w
              (settled_here w)) as (_ & _ & H3).
  apply H3. exact Hfail.
Qed.

Lemma DeleteUser_needs_the_column_witness :
  failed (fst (DeleteUser example_env "u1" (world_of users_database [])))
  /\ master (snd (DeleteUser example_env "u1" (world_of users_database [])))
     = users_database.
Proof.
  apply (DeleteUser_needs_the_column example_env "u1"
           (world_of users_database []) eq_refl).
  simpl. lia.
Defined.




(** *** The reclamation *)

Lemma reclaimed_twice name_ d :
  reclaimed name_ (reclaimed name_ d) = reclaimed name_ d.
Proof.
  unfold reclaimed, with_user. simpl. f_equal.
  induction (user d) as [| r t IH]; simpl; [reflexivity |].
  destruct (negb (String.eqb (name r) name_ && (flag r =? 1))) eqn:Hp; simpl.
  - rewrite Hp. f_equal. exact IH.
  - exact IH.
Qed.

(** [cleanInValidUser], when its statement goes through, removes the
    soft-deleted rows of the name and nothing else: the rows that are
    not soft-deleted and the rows of other names stay, the other tables
    are untouched, and running it once more changes nothing. *)
Theorem reclamation_removes_stale_rows env (name_ : string) (w : world) :
  goes_through w = true ->
  fst (cleanInValidUser env name_ w) = Ok tt
  /\ master (snd (cleanInValidUser env name_ w)) = reclaimed name_ (master w)
  /\ (forall row, In row (user (master (snd (cleanInValidUser env name_ w)))) <->
                  In row (user (master w))
                  /\ ~ (name row = name_ /\ flag row = 1))
  /\ (forall w', master w' = master (snd (cleanInValidUser env name_ w)) ->
                 goes_through w' = true ->
                 master (snd (cleanInValidUser env name_ w')) = master w').
Proof.
  intros Hgo.
  assert (forall w1, goes_through w1 = true ->
            fst (cleanInValidUser env name_ w1) = Ok tt
            /\ master (snd (cleanInValidUser env name_ w1))
               = reclaimed name_ (master w1)) as Hrun.
  { intros w1 Hgo1. unfold goes_through in Hgo1.
    unfold cleanInValidUser, bind, ret, db_Exec, driver. simpl.
    destruct (faults w1) as [| [s |] rest]; simpl; try discriminate; auto. }
  destruct (Hrun w Hgo) as [Hok Hm].
  split; [exact Hok |]. split; [exact Hm |]. split.
  - intros row. rewrite Hm. apply reclaimed_rows.
  - intros w' Hmaster Hgo'. destruct (Hrun w' Hgo') as [_ Hm'].
    rewrite Hm', Hmaster, Hm. apply reclaimed_twice.
Qed.

Lemma reclamation_removes_stale_rows_witness :
  master (snd (cleanInValidUser example_env "bob" (world_of users_database [])))
  = with_user [admin_row; alice_row] empty_database.
Proof.
  destruct (reclamation_removes_stale_rows example_env "bob"
              (world_of users_database []) eq_refl) as (_ & H & _).
  rewrite H. reflexivity.
Defined.

(** *** [AddUser] followed by [DeleteUser] *)

(** The default strategy that [AddUser] creates survives the
    [DeleteUser] of the same id.  Whenever the name built for the user
    kind differs from the one built for the group kind and no strategy
    of the store bears the latter, then after an [AddUser] that returned
    the nil error and whatever [DeleteUser] answers afterwards, the
    store still holds a strategy named for the user that is not
    soft-deleted. *)
Theorem AddUser_then_DeleteUser_keeps_strategy env (u : User) (w : world) :
  (0 < RetryTimes env)%nat ->
  fst (AddUser env u w) = Ok tt ->
  BuildDefaultStrategyName env (ID u) PrincipalUser
  <> BuildDefaultStrategyName env (ID u) PrincipalUserGroup ->
  (forall s, In s (auth_strategy (master w)) ->
     st_name s <> BuildDefaultStrategyName env (ID u) PrincipalUserGroup) ->
  forall w', master w' = master (snd (AddUser env u w)) ->
    exists s,
      In s (auth_strategy (master (snd (DeleteUser env (ID u) w'))))
      /\ st_name s = BuildDefaultStrategyName env (ID u) PrincipalUser
      /\ st_flag s = 0.
Proof.
  intros Hn Hok Hnames Hnone w' Hmaster.
  destruct (AddUser_ok_master env u w Hn Hok) as (_ & k & Hk).
  assert (auth_strategy (master w')
          = auth_strategy (master w) ++ [new_strategy_row env u k]) as Hst.
  { rewrite Hmaster, Hk. reflexivity. }
  destruct (DeleteUser_keeps_strategies env (ID u) w') as [Hkeep _].
  { intros s Hs. rewrite Hst in Hs. apply in_app_or in Hs as [Hs | [<- | []]].
    - apply Hnone. exact Hs.
    - exact Hnames. }
  exists (new_strategy_row env u k). rewrite Hkeep, Hst.
  split; [apply in_or_app; right; left; reflexivity |].
  split; reflexivity.
Qed.

Lemma AddUser_then_DeleteUser_keeps_strategy_witness :
  exists s,
    In s (auth_strategy
            (master (snd (DeleteUser lenient_env "u1"
                            (snd (AddUser lenient_env alice
                                    (world_of empty_database [])))))))
    /\ st_name s = "default-strategy-u1"%string
    /\ st_flag s = 0.
Proof.
  apply (AddUser_then_DeleteUser_keeps_strategy lenient_env alice
           (world_of empty_database [])).
  - simpl. lia.
  - vm_compute. reflexivity.
  - discriminate.
  - intros s [].
  - reflexivity.
Defined.

End WriteMore.
